(** * Agentic Workflow Engine: the orchestration core, embedded and verified

    A shallow embedding of [core/state.py], [core/executor.py],
    [agents/planner.py] ([decide_next_tasks]), [agents/executor_agent.py]
    and [core/engine.py].

    Python dictionaries whose iteration order the engine observes (the
    [tasks] map) are association lists kept key-unique by [dict_set];
    free-form dictionaries ([metadata], [memory], the configuration an
    action receives) are [gmap string Value].  A task's [action_config]
    is stored as the planner produced it, a JSON value of any kind.
    Everything the engine asks of the outside world (the clock, the
    language model behind the planner and the failure advisor, the
    concrete action implementations) is an event of the [Eff] monad, so
    that a node is a tree whose branches are the possible answers. *)

From stdpp Require Import base strings list gmap pretty.
From Stdlib Require Import ZArith Lia.

Local Open Scope string_scope.
Local Open Scope Z_scope.
Local Set Warnings "-register-all".

(** ** Values carried in free-form payloads (a JSON value; floats are left out) *)

Inductive Value : Type :=
| VNone
| VBool (b : bool)
| VInt (z : Z)
| VStr (s : string)
| VList (l : list Value)
| VDict (d : list (string * Value)).

(** Python truthiness, as used by [if x:] and [x or y]. *)
Definition truthy (v : Value) : bool :=
  match v with
  | VNone => false
  | VBool b => b
  | VInt z => negb (z =? 0)
  | VStr s => negb (bool_decide (s = ""))
  | VList l => match l with [] => false | _ => true end
  | VDict d => match d with [] => false | _ => true end
  end.

(** An [int] operand of a comparison: [bool] is a subclass of [int]. *)
Definition as_int (v : Value) : option Z :=
  match v with
  | VInt z => Some z
  | VBool b => Some (if b then 1 else 0)
  | _ => None
  end.

(** [f"{v}"] for the values [as_int] accepts. *)
Definition py_str (v : Value) : string :=
  match v with
  | VInt z => pretty z
  | VBool b => if b then "True" else "False"
  | VStr s => s
  | _ => ""
  end.

(** [type(v).__name__], as it appears in the text of a [TypeError] or an
    [AttributeError]. *)
Definition type_name (v : Value) : string :=
  match v with
  | VNone => "NoneType"
  | VBool _ => "bool"
  | VInt _ => "int"
  | VStr _ => "str"
  | VList _ => "list"
  | VDict _ => "dict"
  end.

(** A JSON object as the dictionary it decodes to; [None] for any other
    value. *)
Definition as_dict (v : Value) : option (gmap string Value) :=
  match v with
  | VDict d => Some (list_to_map d)
  | _ => None
  end.

(** [v == "s"] against a string literal. *)
Definition is_str (v : Value) (s : string) : bool :=
  match v with
  | VStr a => bool_decide (a = s)
  | _ => false
  end.

(** ** core/state.py *)

Definition Time := nat.

Inductive TaskStatus : Type :=
| PENDING | IN_PROGRESS | COMPLETED | FAILED | SKIPPED | RETRYING.

Global Instance TaskStatus_eq_dec : EqDecision TaskStatus.
Proof. solve_decision. Defined.

Record WorkflowContext : Type := {
  workflow_id : string;
  goal : string;
  ctx_started_at : Time;
  ctx_completed_at : option Time;
  ctx_status : string;
  metadata : gmap string Value;
}.

(** [result] is [Optional[Any]]: Python's [None] is [VNone].
    [action_config] is declared [Dict[str, Any]], but [_plan_node] stores
    whatever JSON value the planner gave. *)
Record Task : Type := {
  task_id : string;
  name : string;
  description : string;
  action_type : string;
  action_config : Value;
  status : TaskStatus;
  dependencies : list string;
  retry_count : Z;
  error : option string;
  result : Value;
  started_at : option Time;
  completed_at : option Time;
}.

(** One entry of [execution_history]; an absent key is [None]. *)
Record HistoryEntry : Type := {
  h_task_id : string;
  h_status : string;
  h_timestamp : Time;
  h_result : option Value;
  h_error : option string;
}.

(** One entry of [errors]. *)
Record ErrorEntry : Type := {
  e_step : string;
  e_error : string;
  e_timestamp : Time;
}.

Record WorkflowState : Type := {
  context : WorkflowContext;
  tasks : list (string * Task);
  execution_history : list HistoryEntry;
  current_task : option string;
  memory : gmap string Value;
  errors : list ErrorEntry;
  next_tasks : list string;
  completed_tasks : list string;
  failed_tasks : list string;
}.

(** [create_initial_state]; [now] is the value of [datetime.now()]. *)
Definition create_initial_state (wid g : string) (now : Time) : WorkflowState :=
  {| context := {| workflow_id := wid; goal := g; ctx_started_at := now;
                   ctx_completed_at := None; ctx_status := "running";
                   metadata := ∅ |};
     tasks := []; execution_history := []; current_task := None;
     memory := ∅; errors := []; next_tasks := [];
     completed_tasks := []; failed_tasks := [] |}.

(** ** Insertion-ordered dictionaries *)

Section Dict.
Context {V : Type}.

(** [d.get(k)] *)
Fixpoint dict_get (k : string) (d : list (string * V)) : option V :=
  match d with
  | [] => None
  | (k', v) :: rest => if bool_decide (k = k') then Some v else dict_get k rest
  end.

(** [{**d, k: v}]: an existing key keeps its position, a new one goes last. *)
Fixpoint dict_set (k : string) (v : V) (d : list (string * V)) : list (string * V) :=
  match d with
  | [] => [(k, v)]
  | (k', v') :: rest =>
      if bool_decide (k = k') then (k, v) :: rest else (k', v') :: dict_set k v rest
  end.

(** [list(d.keys())] *)
Definition dict_keys (d : list (string * V)) : list string := d.*1.
End Dict.

(** [tid in l] for a list or a set built from it. *)
Definition mem (x : string) (l : list string) : bool := bool_decide (x ∈ l).

(** [[tid for tid in l if tid != x]] *)
Definition remove_id (x : string) (l : list string) : list string :=
  filter (λ tid, tid ≠ x) l.

(** ** Exceptions and effects *)

Inductive Exn : Type :=
| KeyError (key : string)
| ValueError (msg : string)
| TypeError (msg : string)
| AttributeError (msg : string)
| OtherError (msg : string).

(** [str(e)]; a [KeyError] prints the [repr] of its key. *)
Definition str_exn (e : Exn) : string :=
  match e with
  | KeyError k => "'" +:+ k +:+ "'"
  | ValueError m | TypeError m | AttributeError m | OtherError m => m
  end.

(** The five registered action implementations of [ActionExecutor]. *)
Inductive ActionKind : Type :=
| api_call | db_query | file_operation | transform_data | wait.

(** What the planner's [plan_workflow] hands to [_plan_node]: it has
    already filled in [task_id] and [dependencies] where they were absent;
    the other keys are whatever the model produced, possibly absent.
    [action_config] is any JSON value.  The plans covered are those whose
    [dependencies] are lists of ids: a plan with another value there
    (["dependencies": null], say) makes [_decide_node] fail on iterating
    it, and is outside this development. *)
Record TaskData : Type := {
  td_task_id : string;
  td_name : option string;
  td_description : option string;
  td_action_type : option string;
  td_action_config : option Value;
  td_dependencies : list string;
}.

(** What the failure advisor's prompt is built from. *)
Record AdvisorQuery : Type := {
  q_task : Task;
  q_error : string;
  q_retry_count : Z;
  q_max_retries : Value;
}.

(** A computation that may return, raise, or ask the outside world.
    - [Now]: [datetime.now()];
    - [Perform]: one of [_execute_api_call], [_execute_db_query],
      [_execute_file_operation], [_execute_transform], [_execute_wait];
      it answers with the [data] of a success result or raises;
    - [Reason]: the [llm.ainvoke] of [_reason_about_task];
    - [Advise]: the [try] block of [handle_failure] ([llm.ainvoke], fence
      stripping and [json.loads]): the parsed decision, or the exception;
    - [Planner]: [PlanningAgent.plan_workflow]. *)
Inductive Eff (A : Type) : Type :=
| Ret (a : A)
| Raise (e : Exn)
| Now (k : Time → Eff A)
| Perform (kind : ActionKind) (config : gmap string Value) (k : Value + Exn → Eff A)
| Reason (task : Task) (state : WorkflowState) (k : string + Exn → Eff A)
| Advise (q : AdvisorQuery) (k : Value + Exn → Eff A)
| Planner (g : string) (ctx : gmap string Value) (k : list TaskData + Exn → Eff A).

Arguments Ret {A} a.
Arguments Raise {A} e.
Arguments Now {A} k.
Arguments Perform {A} kind config k.
Arguments Reason {A} task state k.
Arguments Advise {A} q k.
Arguments Planner {A} g ctx k.

Fixpoint bind {A B : Type} (m : Eff A) (f : A → Eff B) : Eff B :=
  match m with
  | Ret a => f a
  | Raise e => Raise e
  | Now k => Now (λ t, bind (k t) f)
  | Perform kind c k => Perform kind c (λ r, bind (k r) f)
  | Reason t s k => Reason t s (λ r, bind (k r) f)
  | Advise q k => Advise q (λ r, bind (k r) f)
  | Planner g c k => Planner g c (λ r, bind (k r) f)
  end.

(** [try: m except Exception as e: h e] *)
Fixpoint try_catch {A : Type} (m : Eff A) (h : Exn → Eff A) : Eff A :=
  match m with
  | Ret a => Ret a
  | Raise e => h e
  | Now k => Now (λ t, try_catch (k t) h)
  | Perform kind c k => Perform kind c (λ r, try_catch (k r) h)
  | Reason t s k => Reason t s (λ r, try_catch (k r) h)
  | Advise q k => Advise q (λ r, try_catch (k r) h)
  | Planner g c k => Planner g c (λ r, try_catch (k r) h)
  end.

Global Instance Eff_ret : MRet Eff := λ A a, Ret a.
Global Instance Eff_bind : MBind Eff := λ A B f m, bind m f.

Definition now : Eff Time := Now Ret.

(** [d[k]] *)
Definition getitem {V : Type} (k : string) (d : list (string * V)) : Eff V :=
  match dict_get k d with
  | Some v => Ret v
  | None => Raise (KeyError k)
  end.

(** [v[k]] on a decoded JSON value; the texts are CPython 3.11's. *)
Definition py_getitem (v : Value) (k : string) : Eff Value :=
  match v with
  | VDict d => getitem k d
  | VNone | VBool _ | VInt _ =>
      Raise (TypeError ("'" +:+ type_name v +:+ "' object is not subscriptable"))
  | VStr _ => Raise (TypeError "string indices must be integers, not 'str'")
  | VList _ => Raise (TypeError "list indices must be integers or slices, not str")
  end.

(** The possible results of a computation, over all answers of the world. *)
Inductive yields {A : Type} : Eff A → A → Prop :=
| yields_Ret a : yields (Ret a) a
| yields_Now k t a : yields (k t) a → yields (Now k) a
| yields_Perform kind c k r a : yields (k r) a → yields (Perform kind c k) a
| yields_Reason t s k r a : yields (k r) a → yields (Reason t s k) a
| yields_Advise q k r a : yields (k r) a → yields (Advise q k) a
| yields_Planner g c k r a : yields (k r) a → yields (Planner g c k) a.

(** No branch of the computation raises to its caller. *)
Fixpoint never_raises {A : Type} (m : Eff A) : Prop :=
  match m with
  | Ret _ => True
  | Raise _ => False
  | Now k => ∀ t, never_raises (k t)
  | Perform _ _ k => ∀ r, never_raises (k r)
  | Reason _ _ k => ∀ r, never_raises (k r)
  | Advise _ k => ∀ r, never_raises (k r)
  | Planner _ _ k => ∀ r, never_raises (k r)
  end.

(** No branch of the computation asks the failure advisor. *)
Fixpoint never_advises {A : Type} (m : Eff A) : Prop :=
  match m with
  | Ret _ | Raise _ => True
  | Now k => ∀ t, never_advises (k t)
  | Perform _ _ k => ∀ r, never_advises (k r)
  | Reason _ _ k => ∀ r, never_advises (k r)
  | Advise _ _ => False
  | Planner _ _ k => ∀ r, never_advises (k r)
  end.

(** A scripted world: the answers, in the order they are asked for. *)
Inductive Reply : Type :=
| R_now (t : Time)
| R_action (r : Value + Exn)
| R_reason (r : string + Exn)
| R_advice (r : Value + Exn)
| R_plan (r : list TaskData + Exn).

(** Runs [m] against a script; [None] when the script does not fit. *)
Fixpoint run_script {A : Type} (m : Eff A) (script : list Reply)
  : option ((Exn + A) * list Reply) :=
  match m with
  | Ret a => Some (inr a, script)
  | Raise e => Some (inl e, script)
  | Now k =>
      match script with R_now t :: rest => run_script (k t) rest | _ => None end
  | Perform _ _ k =>
      match script with R_action r :: rest => run_script (k r) rest | _ => None end
  | Reason _ _ k =>
      match script with R_reason r :: rest => run_script (k r) rest | _ => None end
  | Advise _ k =>
      match script with R_advice r :: rest => run_script (k r) rest | _ => None end
  | Planner _ _ k =>
      match script with R_plan r :: rest => run_script (k r) rest | _ => None end
  end.

(** ** config.py: the settings the engine reads *)

Record Settings : Type := {
  max_retries : Z;
}.

(** [max_retries: int = 3] *)
Definition default_settings : Settings := {| max_retries := 3 |}.

(** ** Field updates ([task["status"] = ...], [{**ctx, "status": ...}]) *)

Definition set_status (v : TaskStatus) (t : Task) : Task :=
  {| task_id := task_id t; name := name t; description := description t;
     action_type := action_type t; action_config := action_config t;
     status := v; dependencies := dependencies t; retry_count := retry_count t;
     error := error t; result := result t; started_at := started_at t;
     completed_at := completed_at t |}.

Definition set_retry_count (v : Z) (t : Task) : Task :=
  {| task_id := task_id t; name := name t; description := description t;
     action_type := action_type t; action_config := action_config t;
     status := status t; dependencies := dependencies t; retry_count := v;
     error := error t; result := result t; started_at := started_at t;
     completed_at := completed_at t |}.

Definition set_error (v : option string) (t : Task) : Task :=
  {| task_id := task_id t; name := name t; description := description t;
     action_type := action_type t; action_config := action_config t;
     status := status t; dependencies := dependencies t; retry_count := retry_count t;
     error := v; result := result t; started_at := started_at t;
     completed_at := completed_at t |}.

Definition set_result (v : Value) (t : Task) : Task :=
  {| task_id := task_id t; name := name t; description := description t;
     action_type := action_type t; action_config := action_config t;
     status := status t; dependencies := dependencies t; retry_count := retry_count t;
     error := error t; result := v; started_at := started_at t;
     completed_at := completed_at t |}.

Definition set_started_at (v : option Time) (t : Task) : Task :=
  {| task_id := task_id t; name := name t; description := description t;
     action_type := action_type t; action_config := action_config t;
     status := status t; dependencies := dependencies t; retry_count := retry_count t;
     error := error t; result := result t; started_at := v;
     completed_at := completed_at t |}.

Definition set_completed_at (v : option Time) (t : Task) : Task :=
  {| task_id := task_id t; name := name t; description := description t;
     action_type := action_type t; action_config := action_config t;
     status := status t; dependencies := dependencies t; retry_count := retry_count t;
     error := error t; result := result t; started_at := started_at t;
     completed_at := v |}.

Definition ctx_set_status (v : string) (c : WorkflowContext) : WorkflowContext :=
  {| workflow_id := workflow_id c; goal := goal c; ctx_started_at := ctx_started_at c;
     ctx_completed_at := ctx_completed_at c; ctx_status := v; metadata := metadata c |}.

Definition ctx_set_completed_at (v : option Time) (c : WorkflowContext) : WorkflowContext :=
  {| workflow_id := workflow_id c; goal := goal c; ctx_started_at := ctx_started_at c;
     ctx_completed_at := v; ctx_status := ctx_status c; metadata := metadata c |}.

Definition ctx_set_metadata (v : gmap string Value) (c : WorkflowContext) : WorkflowContext :=
  {| workflow_id := workflow_id c; goal := goal c; ctx_started_at := ctx_started_at c;
     ctx_completed_at := ctx_completed_at c; ctx_status := ctx_status c; metadata := v |}.

(** ** What a node returns, and how the graph folds it into the state

    The graph is a [StateGraph(WorkflowState)] over a plain [TypedDict]:
    every key a node returns replaces the state's value for that key, and
    the keys it does not return are kept. *)

Record Update : Type := {
  u_context : option WorkflowContext;
  u_tasks : option (list (string * Task));
  u_execution_history : option (list HistoryEntry);
  u_current_task : option (option string);
  u_memory : option (gmap string Value);
  u_errors : option (list ErrorEntry);
  u_next_tasks : option (list string);
  u_completed_tasks : option (list string);
  u_failed_tasks : option (list string);
}.

(** [return {}] *)
Definition no_update : Update :=
  {| u_context := None; u_tasks := None; u_execution_history := None;
     u_current_task := None; u_memory := None; u_errors := None;
     u_next_tasks := None; u_completed_tasks := None; u_failed_tasks := None |}.

Definition apply_update (state : WorkflowState) (u : Update) : WorkflowState :=
  {| context := default (context state) (u_context u);
     tasks := default (tasks state) (u_tasks u);
     execution_history := default (execution_history state) (u_execution_history u);
     current_task := default (current_task state) (u_current_task u);
     memory := default (memory state) (u_memory u);
     errors := default (errors state) (u_errors u);
     next_tasks := default (next_tasks state) (u_next_tasks u);
     completed_tasks := default (completed_tasks state) (u_completed_tasks u);
     failed_tasks := default (failed_tasks state) (u_failed_tasks u) |}.

(** ** core/executor.py: [ActionExecutor] *)

Record ActionResult : Type := {
  ar_status : string;
  ar_data : Value;
  ar_error : option string;
}.

(** A registered implementation: a success result, or an exception. *)
Definition perform (kind : ActionKind) (config : gmap string Value) : Eff ActionResult :=
  Perform kind config (λ r,
    match r with
    | inl data => Ret {| ar_status := "success"; ar_data := data; ar_error := None |}
    | inr e => Raise e
    end).

Definition execute (action_type : string) (config : gmap string Value) : Eff ActionResult :=
  try_catch
    (if bool_decide (action_type = "api_call") then perform api_call config
     else if bool_decide (action_type = "db_query") then perform db_query config
     else if bool_decide (action_type = "file_operation") then perform file_operation config
     else if bool_decide (action_type = "transform_data") then perform transform_data config
     else if bool_decide (action_type = "wait") then perform wait config
     else Raise (ValueError ("Unknown action type: " +:+ action_type)))
    (λ e, Ret {| ar_status := "error"; ar_data := VNone; ar_error := Some (str_exn e) |}).

(** ** agents/executor_agent.py: [ExecutorAgent] *)

Record TaskResult : Type := {
  tr_status : string;
  tr_data : Value;
  tr_error : option string;
}.

Definition _reason_about_task (task : Task) (state : WorkflowState) : Eff string :=
  Reason task state (λ r,
    match r with
    | inl content => Ret content
    | inr _ => Ret "Reasoning unavailable"
    end).

(** [task.get("action_config", {}).get("require_reasoning", False)] comes
    before the [try]: on an [action_config] that is no dictionary the
    second [get] raises [AttributeError] to the caller. *)
Definition execute_task (task : Task) (state : WorkflowState) : Eff TaskResult :=
  match as_dict (action_config task) with
  | None =>
      Raise (AttributeError ("'" +:+ type_name (action_config task)
                             +:+ "' object has no attribute 'get'"))
  | Some action_config =>
      let should_reason :=
        truthy (default (VBool false) (action_config !! "require_reasoning")) in
      _ ← (if should_reason then _reason_about_task task state else Ret "");
      try_catch
        (result ← execute (action_type task) action_config;
         if bool_decide (ar_status result = "error")
         then Ret {| tr_status := "failed";
                     tr_error := Some (default "Unknown error" (ar_error result));
                     tr_data := VNone |}
         else Ret {| tr_status := "success"; tr_data := ar_data result;
                     tr_error := None |})
        (λ e, Ret {| tr_status := "failed"; tr_error := Some (str_exn e);
                     tr_data := VNone |})
  end.

(** The decision dictionaries [handle_failure] builds itself. *)
Definition decision (action reason : string) : Value :=
  VDict [("action", VStr action); ("reason", VStr reason)].

Definition handle_failure (task : Task) (error : string) (state : WorkflowState)
    (retry_count : Z) : Eff Value :=
  let max_retries := default (VInt 3) (metadata (context state) !! "max_retries") in
  match as_int max_retries with
  | None =>
      Raise (TypeError ("'>=' not supported between instances of 'int' and '"
                        +:+ type_name max_retries +:+ "'"))
  | Some m =>
      if m <=? retry_count
      then Ret (decision "fail_workflow"
                  ("Max retries (" +:+ py_str max_retries +:+ ") exceeded"))
      else
        Advise {| q_task := task; q_error := error; q_retry_count := retry_count;
                  q_max_retries := max_retries |}
          (λ r,
            match r with
            | inl decided => Ret decided
            | inr _ =>
                Ret (decision (if retry_count <? m then "retry" else "fail_workflow")
                       "Default decision")
            end)
  end.

(** ** agents/planner.py: [PlanningAgent.decide_next_tasks] *)

(** [all(dep in completed for dep in dependencies)] *)
Definition all_completed (deps completed : list string) : bool :=
  forallb (λ dep, mem dep completed) deps.

Definition decide_next_tasks (state : WorkflowState) (available_tasks : list string)
  : list string :=
  match available_tasks with
  | [] => []
  | _ =>
      let completed := completed_tasks state in
      let failed := failed_tasks state in
      filter (λ task_id,
                let deps := match dict_get task_id (tasks state) with
                            | Some task => dependencies task
                            | None => []
                            end in
                all_completed deps completed = true
                ∧ mem task_id completed = false ∧ mem task_id failed = false)
             available_tasks
  end.

(** ** core/engine.py: the nodes of [WorkflowEngine] *)

(** [task_data["name"]] and the like: a [KeyError] when the key is absent. *)
Definition required {A : Type} (key : string) (o : option A) : Eff A :=
  match o with
  | Some a => Ret a
  | None => Raise (KeyError key)
  end.

Definition make_task (task_data : TaskData) : Eff Task :=
  name ← required "name" (td_name task_data);
  description ← required "description" (td_description task_data);
  action_type ← required "action_type" (td_action_type task_data);
  action_config ← required "action_config" (td_action_config task_data);
  Ret {| task_id := td_task_id task_data; name := name; description := description;
         action_type := action_type; action_config := action_config;
         status := PENDING; dependencies := td_dependencies task_data;
         retry_count := 0; error := None; result := VNone;
         started_at := None; completed_at := None |}.

(** The loop [for task_data in tasks: ... task_dict[task["task_id"]] = task]. *)
Fixpoint build_task_dict (tasks : list TaskData) (task_dict : list (string * Task))
  : Eff (list (string * Task)) :=
  match tasks with
  | [] => Ret task_dict
  | task_data :: rest =>
      task ← make_task task_data;
      build_task_dict rest (dict_set (task_id task) task task_dict)
  end.

(** The dictionary [_plan_node] returns when planning succeeded. *)
Definition plan_update (task_dict : list (string * Task)) (planned : list TaskData)
  : Update :=
  {| u_context := None; u_tasks := Some task_dict; u_execution_history := None;
     u_current_task := None; u_memory := None; u_errors := None;
     u_next_tasks := Some (td_task_id <$> filter (λ t, td_dependencies t = []) planned);
     u_completed_tasks := None; u_failed_tasks := None |}.

(** The dictionary [_plan_node] returns from its [except] branch. *)
Definition plan_failed_update (state : WorkflowState) (e : Exn) (t : Time) : Update :=
  {| u_context := Some (ctx_set_status "failed" (context state));
     u_tasks := None; u_execution_history := None; u_current_task := None;
     u_memory := None;
     u_errors := Some (errors state ++
                       [{| e_step := "plan"; e_error := str_exn e;
                           e_timestamp := t |}])%list;
     u_next_tasks := None; u_completed_tasks := None; u_failed_tasks := None |}.

Definition _plan_node (state : WorkflowState) : Eff Update :=
  try_catch
    (planned ← Planner (goal (context state)) (memory state)
                 (λ r, match r with inl ts => Ret ts | inr e => Raise e end);
     task_dict ← build_task_dict planned [];
     Ret (plan_update task_dict planned))
    (λ e, t ← now; Ret (plan_failed_update state e t)).

(** The dictionary [_execute_node] returns when the task succeeded. *)
Definition success_update (state : WorkflowState) (current_task_id : string)
    (task : Task) (res : TaskResult) (t_log : Time) : Update :=
  {| u_context := None;
     u_tasks := Some (dict_set current_task_id task (tasks state));
     u_execution_history :=
       Some (execution_history state ++
             [{| h_task_id := current_task_id; h_status := "success";
                 h_timestamp := t_log; h_result := Some (tr_data res);
                 h_error := None |}])%list;
     u_current_task := Some None;
     u_memory :=
       Some (<["task_" +:+ current_task_id +:+ "_result" := tr_data res]> (memory state));
     u_errors := None;
     u_next_tasks := Some (remove_id current_task_id (next_tasks state));
     u_completed_tasks := Some (completed_tasks state ++ [current_task_id])%list;
     u_failed_tasks := None |}.

(** The dictionary [_execute_node] returns when the task failed. *)
Definition failure_update (state : WorkflowState) (current_task_id : string)
    (task : Task) (res : TaskResult) (t_log : Time) : Update :=
  {| u_context := None;
     u_tasks := Some (dict_set current_task_id task (tasks state));
     u_execution_history :=
       Some (execution_history state ++
             [{| h_task_id := current_task_id; h_status := "failed";
                 h_timestamp := t_log; h_result := None;
                 h_error := tr_error res |}])%list;
     u_current_task := Some None;
     u_memory := None;
     u_errors := None;
     u_next_tasks := Some (remove_id current_task_id (next_tasks state));
     u_completed_tasks := None;
     u_failed_tasks := Some (failed_tasks state ++ [current_task_id])%list |}.

Definition _execute_node (state : WorkflowState) : Eff Update :=
  match next_tasks state with
  | [] => Ret no_update
  | current_task_id :: _ =>
      task ← getitem current_task_id (tasks state);
      t_start ← now;
      let task := set_started_at (Some t_start) (set_status IN_PROGRESS task) in
      res ← execute_task task state;
      t_end ← now;
      let task := set_completed_at (Some t_end) task in
      if bool_decide (tr_status res = "success") then
        let task := set_error None (set_result (tr_data res) (set_status COMPLETED task)) in
        t_log ← now;
        Ret (success_update state current_task_id task res t_log)
      else
        let task := set_error (tr_error res) (set_status FAILED task) in
        t_log ← now;
        Ret (failure_update state current_task_id task res t_log)
  end.

(** The loop of [_decide_node] over [all_task_ids], building [available]. *)
Fixpoint available_tasks (state : WorkflowState) (all_task_ids : list string)
  : Eff (list string) :=
  match all_task_ids with
  | [] => Ret []
  | task_id :: rest =>
      if mem task_id (completed_tasks state) || mem task_id (failed_tasks state)
      then available_tasks state rest
      else
        task ← getitem task_id (tasks state);
        available ← available_tasks state rest;
        Ret (if all_completed (dependencies task) (completed_tasks state)
             then task_id :: available else available)
  end.

Definition next_tasks_update (l : list string) : Update :=
  {| u_context := None; u_tasks := None; u_execution_history := None;
     u_current_task := None; u_memory := None; u_errors := None;
     u_next_tasks := Some l; u_completed_tasks := None; u_failed_tasks := None |}.

Definition _decide_node (state : WorkflowState) : Eff Update :=
  available ← available_tasks state (dict_keys (tasks state));
  match available with
  | [] => Ret (next_tasks_update [])
  | _ => Ret (next_tasks_update (decide_next_tasks state available))
  end.

Section Engine.
Variable settings : Settings.

(** [[tid for tid in failed_tasks if tasks[tid]["retry_count"] < max_retries]] *)
Fixpoint retryable (state : WorkflowState) (failed : list string) : Eff (list string) :=
  match failed with
  | [] => Ret []
  | tid :: rest =>
      task ← getitem tid (tasks state);
      more ← retryable state rest;
      Ret (if retry_count task <? max_retries settings then tid :: more else more)
  end.

Definition _should_continue (state : WorkflowState) : Eff string :=
  match next_tasks state with
  | [] =>
      failed ← retryable state (failed_tasks state);
      match failed with
      | [] => Ret "complete"
      | _ => Ret "handle_failure"
      end
  | _ => Ret "execute"
  end.

(** The [for ... break] loop: the first failed task that can be retried. *)
Fixpoint first_retryable (state : WorkflowState) (failed : list string)
  : Eff (option string) :=
  match failed with
  | [] => Ret None
  | task_id :: rest =>
      task ← getitem task_id (tasks state);
      if retry_count task <? max_retries settings
      then Ret (Some task_id)
      else first_retryable state rest
  end.

(** [{"context": {**ctx, "status": "failed", "completed_at": now}}] *)
Definition fail_workflow_update (state : WorkflowState) (t : Time) : Update :=
  {| u_context :=
       Some (ctx_set_completed_at (Some t) (ctx_set_status "failed" (context state)));
     u_tasks := None; u_execution_history := None; u_current_task := None;
     u_memory := None; u_errors := None; u_next_tasks := None;
     u_completed_tasks := None; u_failed_tasks := None |}.

(** The dictionary returned on a [retry] decision. *)
Definition retry_update (state : WorkflowState) (task_to_retry : string)
    (task : Task) : Update :=
  {| u_context := None;
     u_tasks := Some (dict_set task_to_retry task (tasks state));
     u_execution_history := None;
     u_current_task := Some (Some task_to_retry);
     u_memory := None; u_errors := None;
     u_next_tasks := Some [task_to_retry];
     u_completed_tasks := None;
     u_failed_tasks := Some (remove_id task_to_retry (failed_tasks state)) |}.

(** The dictionary returned on a [skip] decision. *)
Definition skip_update (state : WorkflowState) (task_to_retry : string)
    (task : Task) : Update :=
  {| u_context := None;
     u_tasks := Some (dict_set task_to_retry task (tasks state));
     u_execution_history := None; u_current_task := None;
     u_memory := None; u_errors := None; u_next_tasks := None;
     u_completed_tasks := None;
     u_failed_tasks := Some (remove_id task_to_retry (failed_tasks state)) |}.

(** [task["error"] or "Unknown error"] *)
Definition error_or_unknown (e : option string) : string :=
  match e with
  | Some msg => if bool_decide (msg = "") then "Unknown error" else msg
  | None => "Unknown error"
  end.

Definition _handle_failure_node (state : WorkflowState) : Eff Update :=
  match failed_tasks state with
  | [] => Ret no_update
  | _ =>
      task_to_retry ← first_retryable state (failed_tasks state);
      match task_to_retry with
      | None => t ← now; Ret (fail_workflow_update state t)
      | Some task_to_retry =>
          (* [if not task_to_retry] is also true of the empty string *)
          if bool_decide (task_to_retry = "")
          then t ← now; Ret (fail_workflow_update state t)
          else
            task ← getitem task_to_retry (tasks state);
            decided ← handle_failure task (error_or_unknown (error task)) state
                        (retry_count task);
            action ← py_getitem decided "action";
            if is_str action "retry" then
              let task := set_error None (set_status RETRYING
                            (set_retry_count (retry_count task + 1) task)) in
              Ret (retry_update state task_to_retry task)
            else if is_str action "skip" then
              let task := set_status SKIPPED task in
              Ret (skip_update state task_to_retry task)
            else t ← now; Ret (fail_workflow_update state t)
      end
  end.

(** The dictionary [_complete_node] returns. *)
Definition complete_update (state : WorkflowState) (status : string) (t : Time)
  : Update :=
  {| u_context :=
       Some (ctx_set_completed_at (Some t) (ctx_set_status status (context state)));
     u_tasks := None; u_execution_history := None; u_current_task := None;
     u_memory := None; u_errors := None; u_next_tasks := None;
     u_completed_tasks := None; u_failed_tasks := None |}.

Definition _complete_node (state : WorkflowState) : Eff Update :=
  let failed_count := length (failed_tasks state) in
  let status := "completed" in
  let status := if (0 <? failed_count)%nat then "completed_with_errors" else status in
  let status :=
    if bool_decide (ctx_status (context state) = "failed") then "failed" else status in
  t ← now;
  Ret (complete_update state status t).

(** *** The graph built by [_build_graph] *)

Inductive Node : Type :=
| N_plan | N_execute | N_decide | N_handle_failure | N_complete | END.

Definition node_fn (n : Node) : WorkflowState → Eff Update :=
  match n with
  | N_plan => _plan_node
  | N_execute => _execute_node
  | N_decide => _decide_node
  | N_handle_failure => _handle_failure_node
  | N_complete => _complete_node
  | END => λ _, Ret no_update
  end.

(** The mapping given to [add_conditional_edges]. *)
Definition conditional_edge (label : string) : Eff Node :=
  if bool_decide (label = "execute") then Ret N_execute
  else if bool_decide (label = "complete") then Ret N_complete
  else if bool_decide (label = "handle_failure") then Ret N_handle_failure
  else Raise (KeyError label).

(** The node that runs after [n], given the state [n] left. *)
Definition successor (n : Node) (state : WorkflowState) : Eff Node :=
  match n with
  | N_plan => Ret N_decide
  | N_decide => label ← _should_continue state; conditional_edge label
  | N_execute => Ret N_decide
  | N_handle_failure => Ret N_decide
  | N_complete => Ret END
  | END => Ret END
  end.

(** One step of the driver: run the node, fold its update into the
    state, follow the edge. *)
Inductive graph_step : Node * WorkflowState → Node * WorkflowState → Prop :=
| graph_step_intro n state u n' :
    n ≠ END →
    yields (node_fn n state) u →
    yields (successor n (apply_update state u)) n' →
    graph_step (n, state) (n', apply_update state u).

(** [run]: the initial state, with the caller's [config] merged into
    [metadata]. *)
Definition initial_state (wid g : string) (t : Time) (config : gmap string Value)
  : WorkflowState :=
  let state := create_initial_state wid g t in
  {| context := ctx_set_metadata (config ∪ metadata (context state)) (context state);
     tasks := tasks state; execution_history := execution_history state;
     current_task := current_task state; memory := memory state;
     errors := errors state; next_tasks := next_tasks state;
     completed_tasks := completed_tasks state; failed_tasks := failed_tasks state |}.

Definition reachable (c : Node * WorkflowState) : Prop :=
  ∃ wid g t config, rtc graph_step (N_plan, initial_state wid g t config) c.

(** The driver against a scripted world. *)
Definition graph_exec1 (c : Node * WorkflowState) (script : list Reply)
  : option ((Node * WorkflowState) * list Reply) :=
  match c.1 with
  | END => None
  | n =>
      match run_script (node_fn n c.2) script with
      | Some (inr u, rest) =>
          match run_script (successor n (apply_update c.2 u)) rest with
          | Some (inr n', rest') => Some ((n', apply_update c.2 u), rest')
          | _ => None
          end
      | _ => None
      end
  end.

Fixpoint graph_exec (fuel : nat) (c : Node * WorkflowState) (script : list Reply)
  : option ((Node * WorkflowState) * list Reply) :=
  match fuel with
  | O => Some (c, script)
  | S fuel' =>
      match graph_exec1 c script with
      | Some (c', rest) => graph_exec fuel' c' rest
      | None => None
      end
  end.
End Engine.

(** ** State invariants of the driver *)

(** The bookkeeping lists against the [tasks] map. *)
Record lists_wf (s : WorkflowState) : Prop := {
  wf_keys : NoDup (dict_keys (tasks s));
  wf_completed_nodup : NoDup (completed_tasks s);
  wf_failed_nodup : NoDup (failed_tasks s);
  wf_disjoint : ∀ tid, tid ∈ completed_tasks s → tid ∉ failed_tasks s;
  wf_completed_keys : ∀ tid, tid ∈ completed_tasks s → tid ∈ dict_keys (tasks s);
  wf_failed_keys : ∀ tid, tid ∈ failed_tasks s → tid ∈ dict_keys (tasks s);
  wf_next :
    ∀ tid, tid ∈ next_tasks s →
      tid ∈ dict_keys (tasks s) ∧ (tid ∉ completed_tasks s) ∧ (tid ∉ failed_tasks s);
}.

(** The status and error of every task against the lists. *)
Record tasks_wf (s : WorkflowState) : Prop := {
  wf_failed_status :
    ∀ tid task, tid ∈ failed_tasks s → dict_get tid (tasks s) = Some task →
      status task = FAILED;
  wf_status_failed :
    ∀ tid task, dict_get tid (tasks s) = Some task → status task = FAILED →
      tid ∈ failed_tasks s;
  wf_error :
    ∀ tid task, dict_get tid (tasks s) = Some task →
      (error task ≠ None ↔ status task = FAILED ∨ status task = SKIPPED);
}.

(** What holds of every configuration the driver reaches: the plan node
    only ever runs on a state without tasks. *)
Record Inv (c : Node * WorkflowState) : Prop := {
  inv_lists : lists_wf c.2;
  inv_tasks : tasks_wf c.2;
  inv_plan :
    c.1 = N_plan → tasks c.2 = [] ∧ completed_tasks c.2 = [] ∧ failed_tasks c.2 = []
                   ∧ next_tasks c.2 = [];
}.

(** ** Concrete workflows used to exercise the model *)

(** A planner descriptor with every key present. *)
Definition descriptor (id : string) (deps : list string) : TaskData :=
  {| td_task_id := id; td_name := Some id; td_description := Some "";
     td_action_type := Some "wait"; td_action_config := Some (VDict []);
     td_dependencies := deps |}.

(** The world's answers to one dispatch that succeeds, and one that fails. *)
Definition dispatch_ok : list Reply :=
  [R_now 1%nat; R_action (inl VNone); R_now 2%nat; R_now 3%nat].

Definition dispatch_fails : list Reply :=
  [R_now 1%nat; R_action (inr (OtherError "boom")); R_now 2%nat; R_now 3%nat].

Definition advice (action : string) : Reply := R_advice (inl (decision action "advised")).

Definition start : Node * WorkflowState := (N_plan, initial_state "w" "g" 0%nat ∅).

(** A task record in a given status, for states written by hand. *)
Definition task_in (id : string) (st : TaskStatus) (deps : list string) (rc : Z)
    (err : option string) : Task :=
  {| task_id := id; name := id; description := ""; action_type := "wait";
     action_config := VDict []; status := st; dependencies := deps; retry_count := rc;
     error := err; result := VNone; started_at := None; completed_at := None |}.

Definition state_with (ts : list (string * Task)) (next completed failed : list string)
  : WorkflowState :=
  {| context := context (initial_state "w" "g" 0%nat ∅);
     tasks := ts; execution_history := []; current_task := None; memory := ∅;
     errors := []; next_tasks := next; completed_tasks := completed;
     failed_tasks := failed |}.

(** The task record [_execute_node] stores after a dispatch. *)
Definition dispatched (task : Task) (t_start t_end : Time) : Task :=
  set_completed_at (Some t_end) (set_started_at (Some t_start) (set_status IN_PROGRESS task)).

(** *** Scripts of concrete runs *)

(** Two independent tasks; the first succeeds, the second fails. *)
Definition one_ok_one_failed : list Reply :=
  (R_plan (inl [descriptor "A" []; descriptor "B" []]) :: dispatch_ok ++ dispatch_fails)%list.

(** One task that fails and is retried on the advisor's word. *)
Definition failed_then_retried : list Reply :=
  (R_plan (inl [descriptor "A" []]) :: dispatch_fails ++ [advice "retry"])%list.

(** One task that fails, is skipped on the advisor's word, and then
    succeeds when the driver dispatches it again. *)
Definition failed_then_skipped : list Reply :=
  (R_plan (inl [descriptor "A" []]) :: dispatch_fails ++ [advice "skip"] ++ dispatch_ok
   ++ [R_now 9%nat])%list.

(** [A] has no dependency, [B] waits for an id that is no task. *)
Definition stalled_run : list Reply :=
  (R_plan (inl [descriptor "A" []; descriptor "B" ["Z"]]) :: dispatch_ok
   ++ [R_now 9%nat])%list.

(** Two independent tasks that both fail; [A] is retried once and fails
    again.  Run with a retry budget of one, [A] has then used it up while
    [B] has not. *)
Definition exhaust_one_of_two : list Reply :=
  (R_plan (inl [descriptor "A" []; descriptor "B" []]) :: dispatch_fails ++ dispatch_fails
   ++ [advice "retry"] ++ dispatch_fails)%list.

(** A retry budget of one, in the settings and in the run's [config]. *)
Definition one_retry : Settings := {| max_retries := 1 |}.

Definition one_retry_config : gmap string Value := {["max_retries" := VInt 1]}.

(** The configuration a scripted run stops in, from the initial state
    with the caller's [config]. *)
Definition run_driver (settings : Settings) (config : gmap string Value) (fuel : nat)
    (script : list Reply) : option (Node * WorkflowState) :=
  fst <$> graph_exec settings fuel (N_plan, initial_state "w" "g" 0%nat config) script.

Definition dependent_chain_run (clock : nat → Time) (d1 d2 d3 : Value) : list Reply :=
  [R_plan (inl [descriptor "A" []; descriptor "B" ["A"]; descriptor "C" ["A"; "B"]]);
   R_now (clock 1%nat); R_action (inl d1); R_now (clock 2%nat); R_now (clock 3%nat);
   R_now (clock 4%nat); R_action (inl d2); R_now (clock 5%nat); R_now (clock 6%nat);
   R_now (clock 7%nat); R_action (inl d3); R_now (clock 8%nat); R_now (clock 9%nat);
   R_now (clock 10%nat)].

(** The configuration that run is in after [fuel] steps of the driver. *)
Definition chain_run (settings : Settings) (wid g : string) (t0 : Time)
    (config : gmap string Value) (clock : nat → Time) (d1 d2 d3 : Value) (fuel : nat)
  : option (Node * WorkflowState) :=
  fst <$> graph_exec settings fuel (N_plan, initial_state wid g t0 config)
            (dependent_chain_run clock d1 d2 d3).

(** ** Further invariants of the driver *)

(** The test [_decide_node] applies to one id. *)
Definition ready (s : WorkflowState) (tid : string) : Prop :=
  ∃ task, dict_get tid (tasks s) = Some task
          ∧ (tid ∉ completed_tasks s) ∧ (tid ∉ failed_tasks s)
          ∧ ∀ dep, dep ∈ dependencies task → dep ∈ completed_tasks s.

(** Statuses, retry counts and dependencies of the tasks, and what is
    known of the state when a given node is about to run. *)
Record run_wf (settings : Settings) (c : Node * WorkflowState) : Prop := {
  rw_retry :
    ∀ tid task, dict_get tid (tasks c.2) = Some task →
      0 ≤ retry_count task ≤ Z.max 0 (max_retries settings);
  rw_completed :
    ∀ tid task, dict_get tid (tasks c.2) = Some task →
      (tid ∈ completed_tasks c.2 ↔ status task = COMPLETED);
  rw_in_progress :
    ∀ tid task, dict_get tid (tasks c.2) = Some task → status task ≠ IN_PROGRESS;
  rw_started :
    ∀ tid task, dict_get tid (tasks c.2) = Some task → status task ≠ PENDING →
      ∀ dep, dep ∈ dependencies task → dep ∈ completed_tasks c.2;
  rw_execute :
    c.1 = N_execute →
      next_tasks c.2 ≠ [] ∧ ∀ tid, tid ∈ next_tasks c.2 → ready c.2 tid;
  rw_handle :
    c.1 = N_handle_failure →
      next_tasks c.2 = []
      ∧ ∃ tid task, tid ∈ failed_tasks c.2 ∧ dict_get tid (tasks c.2) = Some task
                    ∧ retry_count task < max_retries settings;
  rw_complete :
    c.1 = N_complete →
      next_tasks c.2 = [] ∧ (∀ tid, ¬ ready c.2 tid)
      ∧ ∀ tid task, tid ∈ failed_tasks c.2 → dict_get tid (tasks c.2) = Some task →
          max_retries settings ≤ retry_count task;
}.
(** The fields of a task that come from the plan. *)
Definition same_descriptor (t t' : Task) : Prop :=
  task_id t' = task_id t ∧ name t' = name t ∧ description t' = description t
  ∧ action_type t' = action_type t ∧ action_config t' = action_config t
  ∧ dependencies t' = dependencies t.

(** The two tests of the loop in [_decide_node], for one id. *)
Definition is_available (state : WorkflowState) (task_id : string) : bool :=
  negb (mem task_id (completed_tasks state) || mem task_id (failed_tasks state))
  && all_completed (match dict_get task_id (tasks state) with
                    | Some task => dependencies task
                    | None => []
                    end) (completed_tasks state).

(** A descriptor that has the four keys [_plan_node] reads with [[...]]. *)
Definition complete_descriptor (td : TaskData) : Prop :=
  is_Some (td_name td) ∧ is_Some (td_description td)
  ∧ is_Some (td_action_type td) ∧ is_Some (td_action_config td).

(** The conditions under which [_handle_failure_node] gets as far as
    asking the advisor about [tid]: it is the first failed task with
    [retry_count < settings.max_retries], its id is not the empty string,
    and its [retry_count] is below the budget [m] read from [metadata]. *)
Definition advisor_consulted (settings : Settings) (state : WorkflowState)
    (tid : string) (task : Task) (m : Z) : Prop :=
  first_retryable settings state (failed_tasks state) = Ret (Some tid)
  ∧ tid ≠ ""
  ∧ dict_get tid (tasks state) = Some task
  ∧ as_int (default (VInt 3) (metadata (context state) !! "max_retries")) = Some m
  ∧ retry_count task < m.

(** [_execute_db_query]: the answer of the [db_query] implementation,
    given [settings.database_url] ([Optional[str]], [None] unless
    configured).  The result's ["data"] on success, the exception
    otherwise. *)
Definition _execute_db_query (database_url : option string)
    (config : gmap string Value) : Value + Exn :=
  let configured :=
    match database_url with
    | Some url => negb (bool_decide (url = ""))
    | None => false
    end in
  if negb configured then inr (ValueError "Database URL not configured")
  else
    match config !! "query" with
    | None => inr (KeyError "query")
    | Some query =>
        inl (VDict [("query", query);
                    ("params", default (VDict []) (config !! "params"));
                    ("rows", VList []);
                    ("note", VStr "DB execution requires database driver setup")])
    end.

(** * Lemmas *)

(** ** The effect monad *)

Lemma bind_unfold {A B : Type} (m : Eff A) (f : A → Eff B) : (m ≫= f) = bind m f.
Proof. reflexivity. Qed.

Lemma yields_bind_inv {A B : Type} (m : Eff A) (f : A → Eff B) (b : B) :
  yields (bind m f) b → ∃ a, yields m a ∧ yields (f a) b.
Proof.
  induction m as [a|e|k IH|kind c k IH|t s k IH|q k IH|g c k IH]; simpl; intros Hy.
  - exists a. split; [constructor | exact Hy].
  - inversion Hy.
  - inversion Hy as [|k' t a Hk| | | |]; subst.
    destruct (IH _ Hk) as (a' & Ha & Hf). exists a'. split; [econstructor; exact Ha | exact Hf].
  - inversion Hy as [| |kind' c' k' r a Hk| | |]; subst.
    destruct (IH _ Hk) as (a' & Ha & Hf). exists a'. split; [econstructor; exact Ha | exact Hf].
  - inversion Hy as [| | |t' s' k' r a Hk| |]; subst.
    destruct (IH _ Hk) as (a' & Ha & Hf). exists a'. split; [econstructor; exact Ha | exact Hf].
  - inversion Hy as [| | | |q' k' r a Hk|]; subst.
    destruct (IH _ Hk) as (a' & Ha & Hf). exists a'. split; [econstructor; exact Ha | exact Hf].
  - inversion Hy as [| | | | |g' c' k' r a Hk]; subst.
    destruct (IH _ Hk) as (a' & Ha & Hf). exists a'. split; [econstructor; exact Ha | exact Hf].
Qed.

Lemma yields_bind {A B : Type} (m : Eff A) (f : A → Eff B) (a : A) (b : B) :
  yields m a → yields (f a) b → yields (bind m f) b.
Proof.
  induction 1; simpl; intros Hf; try (econstructor; eauto); exact Hf.
Qed.

(** A result of [try: m except: h] is a result of [m] or of the handler. *)
Lemma yields_try_catch_inv {A : Type} (m : Eff A) (h : Exn → Eff A) (a : A) :
  yields (try_catch m h) a → yields m a ∨ ∃ e, yields (h e) a.
Proof.
  induction m as [a'|e|k IH|kind c k IH|t s k IH|q k IH|g c k IH]; simpl; intros Hy.
  - left. exact Hy.
  - right. exists e. exact Hy.
  - inversion Hy as [|k' t a0 Hk| | | |]; subst.
    destruct (IH _ Hk) as [Hm|He]; [left; econstructor; exact Hm | right; exact He].
  - inversion Hy as [| |kind' c' k' r a0 Hk| | |]; subst.
    destruct (IH _ Hk) as [Hm|He]; [left; econstructor; exact Hm | right; exact He].
  - inversion Hy as [| | |t' s' k' r a0 Hk| |]; subst.
    destruct (IH _ Hk) as [Hm|He]; [left; econstructor; exact Hm | right; exact He].
  - inversion Hy as [| | | |q' k' r a0 Hk|]; subst.
    destruct (IH _ Hk) as [Hm|He]; [left; econstructor; exact Hm | right; exact He].
  - inversion Hy as [| | | | |g' c' k' r a0 Hk]; subst.
    destruct (IH _ Hk) as [Hm|He]; [left; econstructor; exact Hm | right; exact He].
Qed.

Lemma yields_Ret_inv {A : Type} (a b : A) : yields (Ret a) b → a = b.
Proof. inversion 1; reflexivity. Qed.

Lemma yields_Raise_inv {A : Type} (e : Exn) (b : A) : yields (Raise e) b → False.
Proof. inversion 1. Qed.

Lemma yields_Now_inv {A : Type} (k : Time → Eff A) (b : A) :
  yields (Now k) b → ∃ t, yields (k t) b.
Proof. inversion 1; subst; eauto. Qed.

(** A scripted run is one of the possible runs. *)
Lemma run_script_yields {A : Type} (m : Eff A) :
  ∀ script a rest, run_script m script = Some (inr a, rest) → yields m a.
Proof.
  induction m as [a'|e|k IH|kind c k IH|t s k IH|q k IH|g c k IH];
    simpl; intros script a rest Hr.
  - injection Hr as -> _. constructor.
  - discriminate.
  - destruct script as [|[]]; try discriminate. econstructor; eauto.
  - destruct script as [|[]]; try discriminate. econstructor; eauto.
  - destruct script as [|[]]; try discriminate. econstructor; eauto.
  - destruct script as [|[]]; try discriminate. econstructor; eauto.
  - destruct script as [|[]]; try discriminate. econstructor; eauto.
Qed.

(** ** Dictionaries and id lists *)

Section DictFacts.
Context {V : Type}.
Implicit Types (d : list (string * V)) (k : string) (v : V).

Lemma dict_get_set_eq k v d : dict_get k (dict_set k v d) = Some v.
Proof.
  induction d as [|[k' v'] d IH]; simpl.
  - rewrite bool_decide_eq_true_2; done.
  - destruct (bool_decide (k = k')) eqn:E; simpl.
    + rewrite bool_decide_eq_true_2; done.
    + rewrite E. exact IH.
Qed.

Lemma dict_get_set_ne k k' v d : k ≠ k' → dict_get k' (dict_set k v d) = dict_get k' d.
Proof.
  intros Hne. induction d as [|[k0 v0] d IH]; simpl.
  - rewrite bool_decide_eq_false_2; [done | congruence].
  - destruct (bool_decide (k = k0)) eqn:E; simpl.
    + apply bool_decide_eq_true_1 in E. subst k0.
      rewrite !bool_decide_eq_false_2 by congruence. done.
    + destruct (bool_decide (k' = k0)); [done | exact IH].
Qed.

Lemma dict_get_keys k d : k ∈ dict_keys d ↔ ∃ v, dict_get k d = Some v.
Proof.
  unfold dict_keys. induction d as [|[k' v'] d IH]; simpl.
  - split; [intros H; inversion H | intros [v Hv]; discriminate].
  - rewrite elem_of_cons. destruct (bool_decide (k = k')) eqn:E.
    + apply bool_decide_eq_true_1 in E. split; eauto.
    + apply bool_decide_eq_false_1 in E. rewrite IH. split; [intros [?|?]; done | auto].
Qed.

Lemma dict_keys_set_present k v d :
  k ∈ dict_keys d → dict_keys (dict_set k v d) = dict_keys d.
Proof.
  unfold dict_keys. induction d as [|[k' v'] d IH]; simpl; intros Hin.
  - inversion Hin.
  - destruct (bool_decide (k = k')) eqn:E; simpl.
    + apply bool_decide_eq_true_1 in E. by subst.
    + apply bool_decide_eq_false_1 in E. f_equal. apply IH.
      apply elem_of_cons in Hin as [?|?]; done.
Qed.

Lemma dict_keys_set_elem k k' v d :
  k' ∈ dict_keys (dict_set k v d) ↔ k' = k ∨ k' ∈ dict_keys d.
Proof.
  rewrite !dict_get_keys. destruct (decide (k = k')) as [->|Hne].
  - rewrite dict_get_set_eq. split; eauto.
  - rewrite dict_get_set_ne by done. split; [auto | intros [?|?]; [congruence | done]].
Qed.

Lemma dict_keys_set_NoDup k v d :
  NoDup (dict_keys d) → NoDup (dict_keys (dict_set k v d)).
Proof.
  unfold dict_keys. induction d as [|[k' v'] d IH]; simpl; intros Hnd.
  - apply NoDup_singleton.
  - apply NoDup_cons in Hnd as [Hk' Hd].
    destruct (bool_decide (k = k')) eqn:E; simpl.
    + apply bool_decide_eq_true_1 in E. subst. by apply NoDup_cons.
    + apply bool_decide_eq_false_1 in E. apply NoDup_cons. split; [|by apply IH].
      intros Hin. apply (dict_keys_set_elem k k' v d) in Hin as [?|?]; [congruence | done].
Qed.
End DictFacts.

Lemma mem_true (x : string) (l : list string) : mem x l = true ↔ x ∈ l.
Proof. unfold mem. apply bool_decide_eq_true. Qed.

Lemma mem_false (x : string) (l : list string) : mem x l = false ↔ x ∉ l.
Proof. unfold mem. apply bool_decide_eq_false. Qed.

Lemma remove_id_elem (x y : string) (l : list string) : x ∈ remove_id y l ↔ x ≠ y ∧ x ∈ l.
Proof. unfold remove_id. exact (list_elem_of_filter (λ tid, tid ≠ y) l x). Qed.

Lemma remove_id_NoDup (y : string) (l : list string) : NoDup l → NoDup (remove_id y l).
Proof. unfold remove_id. apply NoDup_filter. Qed.

Lemma all_completed_true (deps completed : list string) :
  all_completed deps completed = true ↔ ∀ dep, dep ∈ deps → dep ∈ completed.
Proof.
  unfold all_completed. rewrite forallb_forall. split.
  - intros H dep Hd. apply mem_true, H, list_elem_of_In, Hd.
  - intros H dep Hd. apply mem_true, H, list_elem_of_In, Hd.
Qed.

Lemma NoDup_snoc_fresh (x : string) (l : list string) :
  NoDup l → x ∉ l → NoDup (l ++ [x]).
Proof.
  intros Hl Hx. apply NoDup_app. split; [done|]. split; [|apply NoDup_singleton].
  intros y Hy Hyx. apply list_elem_of_singleton in Hyx. by subst.
Qed.

(** ** The action dispatcher and the executor agent *)

Lemma yields_getitem {V : Type} (k : string) (d : list (string * V)) (v : V) :
  yields (getitem k d) v → dict_get k d = Some v.
Proof.
  unfold getitem. destruct (dict_get k d); intros H.
  - by apply yields_Ret_inv in H as ->.
  - by apply yields_Raise_inv in H.
Qed.

Lemma perform_yields kind config r :
  yields (perform kind config) r → ar_status r = "success" ∧ ar_error r = None.
Proof.
  unfold perform. inversion 1 as [| |? ? ? [data|e] ? Hk| | |]; subst.
  - by apply yields_Ret_inv in Hk as <-.
  - by apply yields_Raise_inv in Hk.
Qed.

(** A dispatch result is a success without [error] key, or an error with a message. *)
Lemma execute_yields action_type config r :
  yields (execute action_type config) r →
  (ar_status r = "success" ∧ ar_error r = None)
  ∨ (ar_status r = "error" ∧ ∃ msg, ar_error r = Some msg).
Proof.
  unfold execute. intros H. apply yields_try_catch_inv in H as [H|[e H]].
  - left. repeat case_bool_decide; try (eapply perform_yields; exact H).
    by apply yields_Raise_inv in H.
  - right. apply yields_Ret_inv in H as <-. simpl. eauto.
Qed.

Lemma never_raises_try_catch {A : Type} (m : Eff A) (h : Exn → Eff A) :
  (∀ e, never_raises (h e)) → never_raises (try_catch m h).
Proof.
  intros Hh. induction m; simpl; auto.
Qed.

Lemma execute_never_raises action_type config : never_raises (execute action_type config).
Proof. unfold execute. apply never_raises_try_catch. intros e. exact I. Qed.

(** A task result is a success without error, or a failure with a message. *)
Lemma execute_task_yields task state res :
  yields (execute_task task state) res →
  (tr_status res = "success" ∧ tr_error res = None)
  ∨ (tr_status res = "failed" ∧ ∃ msg, tr_error res = Some msg).
Proof.
  unfold execute_task. intros H.
  destruct (as_dict (action_config task)) as [config|];
    [|by apply yields_Raise_inv in H].
  apply yields_bind_inv in H as (_ & _ & H).
  apply yields_try_catch_inv in H as [H|[e H]].
  - apply yields_bind_inv in H as (r & Hr & H).
    case_bool_decide.
    + apply yields_Ret_inv in H as <-. right. simpl. eauto.
    + apply yields_Ret_inv in H as <-. left. simpl. done.
  - apply yields_Ret_inv in H as <-. right. simpl. eauto.
Qed.

(** ** What each node can return *)

Ltac inv_bind H x Hx := apply yields_bind_inv in H as (x & Hx & H); cbv beta zeta in H.

Lemma execute_node_yields state u :
  yields (_execute_node state) u →
  (next_tasks state = [] ∧ u = no_update)
  ∨ ∃ tid rest task t_start t_end t_log res,
      next_tasks state = tid :: rest
      ∧ dict_get tid (tasks state) = Some task
      ∧ ((tr_status res = "success"
          ∧ u = success_update state tid
                  (set_error None (set_result (tr_data res)
                     (set_status COMPLETED (dispatched task t_start t_end)))) res t_log)
         ∨ (tr_status res ≠ "success" ∧ (∃ msg, tr_error res = Some msg)
            ∧ u = failure_update state tid
                    (set_error (tr_error res)
                       (set_status FAILED (dispatched task t_start t_end))) res t_log)).
Proof.
  unfold _execute_node. intros H.
  destruct (next_tasks state) as [|tid rest] eqn:Hnext.
  { left. by apply yields_Ret_inv in H as <-. }
  right.
  inv_bind H task Htask. apply yields_getitem in Htask.
  inv_bind H t_start Hs. inv_bind H res Hres. inv_bind H t_end He.
  exists tid, rest, task, t_start, t_end.
  case_bool_decide as Hst.
  - inv_bind H t_log Hl. apply yields_Ret_inv in H as <-.
    exists t_log, res. split; [done|]. split; [done|]. left. done.
  - inv_bind H t_log Hl. apply yields_Ret_inv in H as <-.
    exists t_log, res. split; [done|]. split; [done|]. right.
    split; [done|]. split; [|done].
    apply execute_task_yields in Hres as [[? ?]|[_ ?]]; done.
Qed.

Lemma first_retryable_Some settings state failed tid :
  yields (first_retryable settings state failed) (Some tid) →
  tid ∈ failed ∧ ∃ task, dict_get tid (tasks state) = Some task
                         ∧ retry_count task < max_retries settings.
Proof.
  induction failed as [|x rest IH]; simpl; intros H.
  - by apply yields_Ret_inv in H.
  - inv_bind H task Htask. apply yields_getitem in Htask.
    destruct (retry_count task <? max_retries settings) eqn:E.
    + apply yields_Ret_inv in H. injection H as <-.
      split; [apply list_elem_of_here|]. exists task. split; [done|]. lia.
    + destruct (IH H) as [Hin Ht]. split; [by apply list_elem_of_further | done].
Qed.

Lemma handle_failure_node_yields settings state u :
  yields (_handle_failure_node settings state) u →
  (failed_tasks state = [] ∧ u = no_update)
  ∨ (∃ t, u = fail_workflow_update state t)
  ∨ ∃ tid task,
      tid ∈ failed_tasks state
      ∧ dict_get tid (tasks state) = Some task
      ∧ retry_count task < max_retries settings
      ∧ (u = retry_update state tid
               (set_error None (set_status RETRYING
                  (set_retry_count (retry_count task + 1) task)))
         ∨ u = skip_update state tid (set_status SKIPPED task)).
Proof.
  unfold _handle_failure_node. intros H.
  destruct (failed_tasks state) as [|f0 frest] eqn:Hfailed.
  { left. by apply yields_Ret_inv in H as <-. }
  right. rewrite <- Hfailed in *.
  inv_bind H found Hfound. destruct found as [tid|].
  - case_bool_decide.
    { inv_bind H t Ht. apply yields_Ret_inv in H as <-. left. by exists t. }
    apply first_retryable_Some in Hfound as (Hin & task' & Hget & Hrc).
    inv_bind H task Htask. apply yields_getitem in Htask.
    assert (task' = task) as -> by congruence.
    inv_bind H decided Hd. inv_bind H action Ha.
    destruct (is_str action "retry").
    { apply yields_Ret_inv in H as <-. right. exists tid, task. auto. }
    destruct (is_str action "skip").
    { apply yields_Ret_inv in H as <-. right. exists tid, task. auto. }
    inv_bind H t Ht. apply yields_Ret_inv in H as <-. left. by exists t.
  - inv_bind H t Ht. apply yields_Ret_inv in H as <-. left. by exists t.
Qed.

(** The loop of [_decide_node] never raises over the keys of [tasks], and
    collects exactly the ids that pass its tests. *)
Lemma available_tasks_Ret state ids :
  (∀ tid, tid ∈ ids → tid ∈ dict_keys (tasks state)) →
  ∃ l, available_tasks state ids = Ret l
       ∧ ∀ tid, tid ∈ l ↔
           tid ∈ ids ∧ (tid ∉ completed_tasks state) ∧ (tid ∉ failed_tasks state)
           ∧ ∃ task, dict_get tid (tasks state) = Some task
                     ∧ ∀ dep, dep ∈ dependencies task → dep ∈ completed_tasks state.
Proof.
  induction ids as [|x rest IH]; intros Hkeys.
  { exists []. split; [done|]. intros tid. split; [inversion 1 | intros [H _]; inversion H]. }
  destruct IH as (l & Hl & Hspec).
  { intros tid Hin. apply Hkeys. by apply list_elem_of_further. }
  assert (Hx : x ∈ dict_keys (tasks state)) by apply Hkeys, list_elem_of_here.
  apply dict_get_keys in Hx as [task Htask].
  simpl. destruct (mem x (completed_tasks state) || mem x (failed_tasks state)) eqn:E.
  - exists l. split; [done|]. intros tid. rewrite Hspec, elem_of_cons.
    apply orb_true_iff in E. rewrite !mem_true in E.
    split; [intros (? & ? & ? & ?); auto|].
    intros ([->|?] & Hc & Hf & Ht); [tauto | auto].
  - apply orb_false_iff in E as [Ec Ef]. rewrite mem_false in Ec, Ef.
    unfold getitem. rewrite Htask. rewrite !bind_unfold. simpl. rewrite Hl. simpl.
    destruct (all_completed (dependencies task) (completed_tasks state)) eqn:Ed.
    + exists (x :: l). split; [done|]. intros tid. rewrite !elem_of_cons, Hspec.
      pose proof (proj1 (all_completed_true _ _) Ed) as Ed'.
      split; [intros [->|(? & ? & ? & ?)]; eauto 10 | intros ([->|?] & ? & ? & ?); auto].
    + exists l. split; [done|]. intros tid. rewrite elem_of_cons, Hspec.
      split; [intros (? & ? & ? & ?); auto|].
      intros ([->|?] & Hc & Hf & task' & Ht' & Hdeps); [|eauto 10].
      assert (task' = task) as -> by congruence.
      pose proof (proj2 (all_completed_true _ _) Hdeps). congruence.
Qed.

(** The planner's second pass keeps every id the first pass found. *)
Lemma decide_next_tasks_elem state available tid :
  tid ∈ decide_next_tasks state available ↔
    tid ∈ available
    ∧ all_completed (match dict_get tid (tasks state) with
                     | Some task => dependencies task
                     | None => []
                     end) (completed_tasks state) = true
    ∧ mem tid (completed_tasks state) = false ∧ mem tid (failed_tasks state) = false.
Proof.
  unfold decide_next_tasks. destruct available as [|a rest].
  - split; [inversion 1 | intros [H _]; inversion H].
  - rewrite list_elem_of_filter. tauto.
Qed.

(** The Decide step always returns, with exactly the ready ids. *)
Lemma decide_node_Ret state :
  ∃ l, _decide_node state = Ret (next_tasks_update l)
       ∧ ∀ tid, tid ∈ l ↔
           ∃ task, dict_get tid (tasks state) = Some task
                   ∧ (tid ∉ completed_tasks state) ∧ (tid ∉ failed_tasks state)
                   ∧ ∀ dep, dep ∈ dependencies task → dep ∈ completed_tasks state.
Proof.
  destruct (available_tasks_Ret state (dict_keys (tasks state))) as (l & Hl & Hspec); [done|].
  unfold _decide_node. rewrite bind_unfold, Hl. simpl.
  assert (Hready : ∀ tid, tid ∈ l ↔
            ∃ task, dict_get tid (tasks state) = Some task
                    ∧ (tid ∉ completed_tasks state) ∧ (tid ∉ failed_tasks state)
                    ∧ ∀ dep, dep ∈ dependencies task → dep ∈ completed_tasks state).
  { intros tid. rewrite Hspec. split.
    - intros (_ & ? & ? & task & ? & ?). eauto.
    - intros (task & Ht & ? & ? & ?). split; [apply dict_get_keys; eauto | eauto]. }
  destruct l as [|a rest] eqn:El.
  - exists []. split; [done|]. exact Hready.
  - exists (decide_next_tasks state (a :: rest)). split; [done|].
    intros tid. rewrite decide_next_tasks_elem, <- Hready. split; [tauto|].
    intros Hin. split; [done|]. apply Hready in Hin as (task & -> & Hc & Hf & Hd).
    rewrite all_completed_true, !mem_false. auto.
Qed.

Lemma decide_node_yields state u :
  yields (_decide_node state) u →
  ∃ l, u = next_tasks_update l
       ∧ ∀ tid, tid ∈ l →
           tid ∈ dict_keys (tasks state) ∧ (tid ∉ completed_tasks state)
           ∧ (tid ∉ failed_tasks state).
Proof.
  destruct (decide_node_Ret state) as (l & -> & Hspec). intros H.
  apply yields_Ret_inv in H as <-. exists l. split; [done|].
  intros tid Hin. apply Hspec in Hin as (task & Ht & ? & ? & _).
  split; [apply dict_get_keys; eauto | done].
Qed.

Lemma complete_node_eq state :
  _complete_node state =
    Now (λ t, Ret (complete_update state
                     (if bool_decide (ctx_status (context state) = "failed") then "failed"
                      else if bool_decide (failed_tasks state = []) then "completed"
                      else "completed_with_errors") t)).
Proof.
  unfold _complete_node. destruct (failed_tasks state); reflexivity.
Qed.

(** Every task the plan loop stores is pending, without error. *)
Lemma make_task_yields task_data task :
  yields (make_task task_data) task →
  task_id task = td_task_id task_data ∧ status task = PENDING ∧ error task = None.
Proof.
  unfold make_task. intros H.
  inv_bind H n Hn. inv_bind H d Hd. inv_bind H a Ha. inv_bind H c Hc.
  by apply yields_Ret_inv in H as <-.
Qed.

Lemma build_task_dict_yields planned :
  ∀ acc task_dict,
    yields (build_task_dict planned acc) task_dict →
    NoDup (dict_keys acc) →
    (∀ tid task, dict_get tid acc = Some task → status task = PENDING ∧ error task = None) →
    NoDup (dict_keys task_dict)
    ∧ (∀ tid task, dict_get tid task_dict = Some task →
         status task = PENDING ∧ error task = None)
    ∧ (∀ tid, tid ∈ dict_keys acc → tid ∈ dict_keys task_dict)
    ∧ (∀ td, td ∈ planned → td_task_id td ∈ dict_keys task_dict).
Proof.
  induction planned as [|td rest IH]; simpl; intros acc task_dict H Hnd Hacc.
  - apply yields_Ret_inv in H as <-. split; [done|]. split; [done|].
    split; [done|]. intros td Htd. inversion Htd.
  - inv_bind H task Htask. apply make_task_yields in Htask as (Hid & Hst & Herr).
    apply IH in H as (H1 & H2 & H3 & H4).
    + split; [done|]. split; [done|]. split.
      * intros tid Hin. apply H3, dict_keys_set_elem. auto.
      * intros td' Hin. apply elem_of_cons in Hin as [->|Hin]; [|by apply H4].
        apply H3, dict_keys_set_elem. left. done.
    + by apply dict_keys_set_NoDup.
    + intros tid task' Hget. destruct (decide (task_id task = tid)) as [<-|Hne].
      * rewrite dict_get_set_eq in Hget. injection Hget as <-. done.
      * rewrite dict_get_set_ne in Hget by done. eauto.
Qed.

Lemma plan_node_yields state u :
  yields (_plan_node state) u →
  (∃ planned task_dict,
      yields (build_task_dict planned []) task_dict ∧ u = plan_update task_dict planned)
  ∨ ∃ e t, u = plan_failed_update state e t.
Proof.
  unfold _plan_node. intros H. apply yields_try_catch_inv in H as [H|[e H]].
  - left. inv_bind H planned Hp. inv_bind H task_dict Hd.
    apply yields_Ret_inv in H as <-. eauto.
  - right. inv_bind H t Ht. apply yields_Ret_inv in H as <-. eauto.
Qed.

(** ** The invariant is kept by every update a node returns *)

Lemma apply_no_update state : apply_update state no_update = state.
Proof. by destruct state. Qed.

Ltac dict_cases id tid H :=
  destruct (decide (id = tid)) as [<-|?];
  [rewrite dict_get_set_eq in H; injection H as <-
  |rewrite dict_get_set_ne in H by done].

Lemma wf_context_only state u :
  u_tasks u = None → u_next_tasks u = None → u_completed_tasks u = None →
  u_failed_tasks u = None →
  lists_wf state ∧ tasks_wf state →
  lists_wf (apply_update state u) ∧ tasks_wf (apply_update state u).
Proof.
  intros H1 H2 H3 H4 [[] []].
  split; constructor; simpl; rewrite ?H1, ?H2, ?H3, ?H4; simpl; assumption.
Qed.

Lemma wf_next_tasks_update state l :
  (∀ tid, tid ∈ l →
     tid ∈ dict_keys (tasks state) ∧ (tid ∉ completed_tasks state)
     ∧ (tid ∉ failed_tasks state)) →
  lists_wf state ∧ tasks_wf state →
  lists_wf (apply_update state (next_tasks_update l))
  ∧ tasks_wf (apply_update state (next_tasks_update l)).
Proof.
  intros Hl [[] []]. split; constructor; simpl; assumption.
Qed.

Lemma wf_success_update state tid rest task task' res t_log :
  next_tasks state = tid :: rest →
  dict_get tid (tasks state) = Some task →
  status task' = COMPLETED → error task' = None →
  lists_wf state ∧ tasks_wf state →
  lists_wf (apply_update state (success_update state tid task' res t_log))
  ∧ tasks_wf (apply_update state (success_update state tid task' res t_log)).
Proof.
  intros Hnext Hget Hst Herr [Hl Ht].
  destruct (wf_next _ Hl tid) as (Hkey & Hnc & Hnf); [rewrite Hnext; apply list_elem_of_here|].
  destruct Hl, Ht. split; constructor; simpl.
  - by apply dict_keys_set_NoDup.
  - by apply NoDup_snoc_fresh.
  - done.
  - intros x Hx. apply elem_of_app in Hx as [Hx|Hx]; [auto|].
    apply list_elem_of_singleton in Hx as ->. done.
  - intros x Hx. rewrite dict_keys_set_present by done.
    apply elem_of_app in Hx as [Hx|Hx]; [auto|].
    apply list_elem_of_singleton in Hx as ->. done.
  - intros x Hx. rewrite dict_keys_set_present by done. auto.
  - intros x Hx. apply remove_id_elem in Hx as [Hne Hx].
    rewrite dict_keys_set_present by done.
    destruct (wf_next0 x Hx) as (? & ? & ?). split; [done|]. split; [|done].
    intros Hin. apply elem_of_app in Hin as [?|Hin]; [done|].
    by apply list_elem_of_singleton in Hin.
  - intros x t Hx Hg. dict_cases tid x Hg; [done | eauto].
  - intros x t Hg Hs. dict_cases tid x Hg; [congruence | eauto].
  - intros x t Hg. dict_cases tid x Hg; [|eauto].
    rewrite Hst, Herr. split; [done | intros [?|?]; discriminate].
Qed.

Lemma wf_failure_update state tid rest task task' res t_log :
  next_tasks state = tid :: rest →
  dict_get tid (tasks state) = Some task →
  status task' = FAILED → (∃ msg, error task' = Some msg) →
  lists_wf state ∧ tasks_wf state →
  lists_wf (apply_update state (failure_update state tid task' res t_log))
  ∧ tasks_wf (apply_update state (failure_update state tid task' res t_log)).
Proof.
  intros Hnext Hget Hst [msg Herr] [Hl Ht].
  destruct (wf_next _ Hl tid) as (Hkey & Hnc & Hnf); [rewrite Hnext; apply list_elem_of_here|].
  destruct Hl, Ht. split; constructor; simpl.
  - by apply dict_keys_set_NoDup.
  - done.
  - by apply NoDup_snoc_fresh.
  - intros x Hx Hin. apply elem_of_app in Hin as [Hin|Hin]; [by eapply wf_disjoint0|].
    apply list_elem_of_singleton in Hin as ->. done.
  - intros x Hx. rewrite dict_keys_set_present by done. auto.
  - intros x Hx. rewrite dict_keys_set_present by done.
    apply elem_of_app in Hx as [Hx|Hx]; [auto|].
    apply list_elem_of_singleton in Hx as ->. done.
  - intros x Hx. apply remove_id_elem in Hx as [Hne Hx].
    rewrite dict_keys_set_present by done.
    destruct (wf_next0 x Hx) as (? & ? & ?). split; [done|]. split; [done|].
    intros Hin. apply elem_of_app in Hin as [?|Hin]; [done|].
    by apply list_elem_of_singleton in Hin.
  - intros x t Hx Hg. dict_cases tid x Hg; [done|].
    apply elem_of_app in Hx as [Hx|Hx]; [eauto|].
    apply list_elem_of_singleton in Hx. congruence.
  - intros x t Hg Hs. apply elem_of_app. dict_cases tid x Hg.
    + right. by apply list_elem_of_singleton.
    + left. eauto.
  - intros x t Hg. dict_cases tid x Hg; [|eauto].
    rewrite Hst, Herr. split; [auto | done].
Qed.

Lemma wf_retry_update state tid task task' :
  tid ∈ failed_tasks state →
  dict_get tid (tasks state) = Some task →
  status task' = RETRYING → error task' = None →
  lists_wf state ∧ tasks_wf state →
  lists_wf (apply_update state (retry_update state tid task'))
  ∧ tasks_wf (apply_update state (retry_update state tid task')).
Proof.
  intros Hin Hget Hst Herr [Hl Ht].
  pose proof (wf_failed_keys _ Hl tid Hin) as Hkey.
  destruct Hl, Ht. split; constructor; simpl.
  - by apply dict_keys_set_NoDup.
  - done.
  - by apply remove_id_NoDup.
  - intros x Hx Hr. apply remove_id_elem in Hr as [_ Hr]. by eapply wf_disjoint0.
  - intros x Hx. rewrite dict_keys_set_present by done. auto.
  - intros x Hx. apply remove_id_elem in Hx as [_ Hx].
    rewrite dict_keys_set_present by done. auto.
  - intros x Hx. apply list_elem_of_singleton in Hx as ->.
    rewrite dict_keys_set_present by done. split; [done|]. split.
    + intros Hc. by eapply wf_disjoint0.
    + intros Hr. by apply remove_id_elem in Hr as [? _].
  - intros x t Hx Hg. apply remove_id_elem in Hx as [Hne Hx].
    dict_cases tid x Hg; [done | eauto].
  - intros x t Hg Hs. apply remove_id_elem. dict_cases tid x Hg; [congruence|].
    split; [done | eauto].
  - intros x t Hg. dict_cases tid x Hg; [|eauto].
    rewrite Hst, Herr. split; [done | intros [?|?]; discriminate].
Qed.

Lemma wf_skip_update state tid task :
  tid ∈ failed_tasks state →
  dict_get tid (tasks state) = Some task →
  lists_wf state ∧ tasks_wf state →
  lists_wf (apply_update state (skip_update state tid (set_status SKIPPED task)))
  ∧ tasks_wf (apply_update state (skip_update state tid (set_status SKIPPED task))).
Proof.
  intros Hin Hget [Hl Ht].
  pose proof (wf_failed_keys _ Hl tid Hin) as Hkey.
  pose proof (wf_failed_status _ Ht tid task Hin Hget) as Hfailed.
  pose proof (proj2 (wf_error _ Ht tid task Hget) (or_introl Hfailed)) as Herr.
  destruct Hl, Ht. split; constructor; simpl.
  - by apply dict_keys_set_NoDup.
  - done.
  - by apply remove_id_NoDup.
  - intros x Hx Hr. apply remove_id_elem in Hr as [_ Hr]. by eapply wf_disjoint0.
  - intros x Hx. rewrite dict_keys_set_present by done. auto.
  - intros x Hx. apply remove_id_elem in Hx as [_ Hx].
    rewrite dict_keys_set_present by done. auto.
  - intros x Hx. rewrite dict_keys_set_present by done.
    destruct (wf_next0 x Hx) as (? & ? & Hnf). split; [done|]. split; [done|].
    intros Hr. by apply remove_id_elem in Hr as [_ ?].
  - intros x t Hx Hg. apply remove_id_elem in Hx as [Hne Hx].
    dict_cases tid x Hg; [done | eauto].
  - intros x t Hg Hs. apply remove_id_elem. dict_cases tid x Hg; [discriminate|].
    split; [done | eauto].
  - intros x t Hg. dict_cases tid x Hg; [|eauto].
    simpl. split; [auto | done].
Qed.

Lemma wf_plan_update state planned task_dict :
  yields (build_task_dict planned []) task_dict →
  completed_tasks state = [] → failed_tasks state = [] →
  lists_wf (apply_update state (plan_update task_dict planned))
  ∧ tasks_wf (apply_update state (plan_update task_dict planned)).
Proof.
  intros Hb Hc Hf.
  apply build_task_dict_yields in Hb as (Hnd & Hpending & _ & Hplanned);
    [|apply NoDup_nil_2|intros ? ? ?; discriminate].
  split; constructor; simpl; rewrite ?Hc, ?Hf.
  - done.
  - apply NoDup_nil_2.
  - apply NoDup_nil_2.
  - intros x Hx. inversion Hx.
  - intros x Hx. inversion Hx.
  - intros x Hx. inversion Hx.
  - intros x Hx. apply list_elem_of_fmap in Hx as (td & -> & Htd).
    apply list_elem_of_filter in Htd as [_ Htd].
    split; [by apply Hplanned|]. split; intros Hin; inversion Hin.
  - intros x t Hx. inversion Hx.
  - intros x t Hg Hs. apply Hpending in Hg as [? _]. congruence.
  - intros x t Hg. apply Hpending in Hg as [-> ->].
    split; [done | intros [?|?]; discriminate].
Qed.

(** ** The invariant over the driver's runs *)

Lemma successor_not_plan settings n state n' :
  yields (successor settings n state) n' → n' ≠ N_plan.
Proof.
  destruct n; simpl; intros H; try (apply yields_Ret_inv in H as <-; discriminate).
  inv_bind H label Hl. unfold conditional_edge in H.
  repeat case_bool_decide; try (apply yields_Ret_inv in H as <-; discriminate).
  by apply yields_Raise_inv in H.
Qed.

Lemma Inv_initial wid g t config : Inv (N_plan, initial_state wid g t config).
Proof.
  split; [split|split|]; simpl; try apply NoDup_nil_2; try done;
    try (intros ? H; inversion H); try (intros ? ? H; inversion H).
Qed.

Lemma node_keeps_wf settings n state u :
  n ≠ END →
  Inv (n, state) →
  yields (node_fn settings n state) u →
  lists_wf (apply_update state u) ∧ tasks_wf (apply_update state u).
Proof.
  intros Hn [Hl Ht Hplan] Hy. simpl in *.
  assert (Hwf : lists_wf state ∧ tasks_wf state) by done.
  destruct n; simpl in Hy; [| | | | |done].
  - destruct Hplan as (_ & Hc & Hf & _); [done|].
    apply plan_node_yields in Hy as [(planned & task_dict & Hb & ->)|(e & t & ->)].
    + by apply wf_plan_update.
    + by apply wf_context_only.
  - apply execute_node_yields in Hy
      as [[_ ->]|(tid & rest & task & ts & te & tl & res & Hnext & Hget & Hcase)].
    + by rewrite apply_no_update.
    + destruct Hcase as [[_ ->]|(_ & Hmsg & ->)].
      * by eapply wf_success_update.
      * by eapply wf_failure_update.
  - apply decide_node_yields in Hy as (l & -> & Hspec). by apply wf_next_tasks_update.
  - apply handle_failure_node_yields in Hy
      as [[_ ->]|[[t ->]|(tid & task & Hin & Hget & _ & [->| ->])]].
    + by rewrite apply_no_update.
    + by apply wf_context_only.
    + by eapply wf_retry_update.
    + by eapply wf_skip_update.
  - rewrite complete_node_eq in Hy. apply yields_Now_inv in Hy as [t Hy].
    apply yields_Ret_inv in Hy as <-. by apply wf_context_only.
Qed.

Lemma Inv_step settings c c' : graph_step settings c c' → Inv c → Inv c'.
Proof.
  intros [n state u n' Hn Hu Hsucc] HI.
  destruct (node_keeps_wf settings n state u Hn HI Hu) as [Hl Ht].
  split; simpl; [done | done |].
  intros ->. by apply successor_not_plan in Hsucc.
Qed.

Lemma reachable_Inv settings c : reachable settings c → Inv c.
Proof.
  intros (wid & g & t & config & Hrtc).
  revert c Hrtc. apply (rtc_ind_r (λ c, Inv c)); [apply Inv_initial|].
  intros y z _ Hstep Hy. eapply Inv_step; eauto.
Qed.

(** A scripted run of the driver is a run of the driver. *)
Lemma graph_exec1_step settings c script c' rest :
  graph_exec1 settings c script = Some (c', rest) → graph_step settings c c'.
Proof.
  destruct c as [n state]. unfold graph_exec1. cbn [fst snd]. intros H.
  assert (Hn : n ≠ END) by (intros ->; discriminate H).
  assert (Hrun : ∃ u rest1 n',
             run_script (node_fn settings n state) script = Some (inr u, rest1)
             ∧ run_script (successor settings n (apply_update state u)) rest1
               = Some (inr n', rest)
             ∧ c' = (n', apply_update state u)).
  { destruct n; [| | | | |done];
      (match type of H with
       | match ?x with _ => _ end = _ =>
           destruct x as [[[?|u] rest1]|] eqn:Hu; [discriminate H| |discriminate H]
       end;
       match type of H with
       | match ?x with _ => _ end = _ =>
           destruct x as [[[?|n'] rest2]|] eqn:Hs; [discriminate H| |discriminate H]
       end;
       injection H as <- <-; exists u, rest1, n'; done). }
  destruct Hrun as (u & rest1 & n' & Hu & Hs & ->).
  apply run_script_yields in Hu, Hs. by constructor.
Qed.

Lemma graph_exec_rtc settings fuel :
  ∀ c script c' rest,
    graph_exec settings fuel c script = Some (c', rest) → rtc (graph_step settings) c c'.
Proof.
  induction fuel as [|fuel IH]; simpl; intros c script c' rest H.
  - injection H as <- _. apply rtc_refl.
  - destruct (graph_exec1 settings c script) as [[c1 rest1]|] eqn:E; [|discriminate].
    eapply rtc_l; [eapply graph_exec1_step; exact E | eapply IH; exact H].
Qed.

Lemma graph_exec_reachable settings fuel wid g t config script c rest :
  graph_exec settings fuel (N_plan, initial_state wid g t config) script = Some (c, rest) →
  reachable settings c.
Proof. intros H. exists wid, g, t, config. eapply graph_exec_rtc; exact H. Qed.

Lemma run_driver_reachable settings config fuel script c :
  run_driver settings config fuel script = Some c → reachable settings c.
Proof.
  unfold run_driver. intros H.
  destruct (graph_exec settings fuel (N_plan, initial_state "w" "g" 0%nat config) script)
    as [[c' rest]|] eqn:E; [|discriminate H].
  injection H as <-. eapply graph_exec_reachable; exact E.
Qed.

(** * The claims *)

(** C9. A dispatch whose [action_type] is none of [api_call], [db_query],
    [file_operation], [transform_data], [wait] returns, without raising and
    without running any action, the result with status ["error"] whose
    message is ["Unknown action type: "] followed by the offending tag. *)
Theorem execute_unknown_action (action_type : string) (config : gmap string Value) :
  action_type ∉ ["api_call"; "db_query"; "file_operation"; "transform_data"; "wait"] →
  execute action_type config =
    Ret {| ar_status := "error"; ar_data := VNone;
           ar_error := Some ("Unknown action type: " +:+ action_type) |}
  ∧ never_raises (execute action_type config).
Proof.
  intros Hnot. split; [|apply execute_never_raises].
  unfold execute.
  rewrite !bool_decide_eq_false_2; [reflexivity|..];
    intros ->; apply Hnot; repeat constructor.
Qed.

Lemma execute_unknown_action_witness :
  execute "nonexistent" ∅ =
    Ret {| ar_status := "error"; ar_data := VNone;
           ar_error := Some "Unknown action type: nonexistent" |}
  ∧ never_raises (execute "nonexistent" ∅).
Proof.
  apply (execute_unknown_action "nonexistent" ∅).
  intros H. repeat (apply elem_of_cons in H as [H|H]; [discriminate H|]).
  inversion H.
Defined.

(** C10. When the Execute step dispatches the first id of [next_tasks] and
    that task ends [FAILED], the step leaves [memory], [completed_tasks],
    [context] and [errors] as they were and changes no other entry of
    [tasks]; it appends the id to [failed_tasks], one entry to
    [execution_history], removes the id from [next_tasks] and resets
    [current_task]. *)
Theorem execute_failure_frame (state : WorkflowState) (u : Update)
    (tid : string) (rest : list string) (task' : Task) :
  yields (_execute_node state) u →
  next_tasks state = tid :: rest →
  dict_get tid (tasks (apply_update state u)) = Some task' →
  status task' = FAILED →
  let state' := apply_update state u in
  memory state' = memory state
  ∧ completed_tasks state' = completed_tasks state
  ∧ context state' = context state
  ∧ errors state' = errors state
  ∧ (∀ other, other ≠ tid → dict_get other (tasks state') = dict_get other (tasks state))
  ∧ failed_tasks state' = (failed_tasks state ++ [tid])%list
  ∧ next_tasks state' = remove_id tid (next_tasks state)
  ∧ current_task state' = None
  ∧ ∃ entry, execution_history state' = (execution_history state ++ [entry])%list
             ∧ h_task_id entry = tid ∧ h_status entry = "failed"
             ∧ h_error entry = error task'.
Proof.
  intros Hy Hnext Hget Hst.
  apply execute_node_yields in Hy
    as [[Hnil _]|(tid0 & rest0 & task & ts & te & tl & res & Hnext0 & Hget0 & Hcase)].
  { congruence. }
  assert (tid0 = tid) as -> by congruence.
  destruct Hcase as [[_ ->]|(_ & _ & ->)]; simpl in *.
  - rewrite dict_get_set_eq in Hget. injection Hget as <-. discriminate Hst.
  - rewrite dict_get_set_eq in Hget. injection Hget as <-.
    repeat split; try done.
    + intros other Hne. by apply dict_get_set_ne.
    + eexists. split; [reflexivity|]. done.
Qed.

Lemma execute_failure_frame_witness :
  let state := state_with [("A", task_in "A" PENDING [] 0 None)] ["A"] [] [] in
  let res := {| tr_status := "failed"; tr_data := VNone; tr_error := Some "boom" |} in
  let task' := set_error (Some "boom")
                 (set_status FAILED (dispatched (task_in "A" PENDING [] 0 None) 1%nat 2%nat)) in
  let u := failure_update state "A" task' res 3%nat in
  run_script (_execute_node state) dispatch_fails = Some (inr u, [])
  ∧ memory (apply_update state u) = memory state
  ∧ completed_tasks (apply_update state u) = completed_tasks state
  ∧ failed_tasks (apply_update state u) = ["A"].
Proof.
  intros state res task' u.
  assert (Hrun : run_script (_execute_node state) dispatch_fails = Some (inr u, []))
    by (vm_compute; reflexivity).
  split; [exact Hrun|].
  pose proof (execute_failure_frame state u "A" [] task'
                (run_script_yields _ _ _ _ Hrun) eq_refl eq_refl eq_refl)
    as (Hm & Hc & _ & _ & _ & Hf & _).
  split; [exact Hm|]. split; [exact Hc|]. exact Hf.
Defined.

(** C2. In every configuration the driver reaches, [completed_tasks] and
    [failed_tasks] are disjoint, every id of either is a key of [tasks],
    no id occurs twice in either list or among the keys, and every id of
    [next_tasks] is a key of [tasks] that is neither completed nor failed. *)
Theorem reachable_lists_invariant (settings : Settings) (c : Node * WorkflowState) :
  reachable settings c →
  (∀ tid, tid ∈ completed_tasks c.2 → tid ∉ failed_tasks c.2)
  ∧ (∀ tid, tid ∈ completed_tasks c.2 ∨ tid ∈ failed_tasks c.2 →
       tid ∈ dict_keys (tasks c.2))
  ∧ NoDup (dict_keys (tasks c.2))
  ∧ NoDup (completed_tasks c.2)
  ∧ NoDup (failed_tasks c.2)
  ∧ (∀ tid, tid ∈ next_tasks c.2 →
       tid ∈ dict_keys (tasks c.2) ∧ (tid ∉ completed_tasks c.2)
       ∧ (tid ∉ failed_tasks c.2)).
Proof.
  intros Hreach. destruct (reachable_Inv settings c Hreach) as [[] _ _].
  repeat split; try done.
  - intros tid [?|?]; auto.
  - by apply wf_next0.
  - by apply wf_next0.
  - by apply wf_next0.
Qed.

Lemma reachable_lists_invariant_witness :
  ∃ s, run_driver default_settings ∅ 5 one_ok_one_failed = Some (N_decide, s)
       ∧ completed_tasks s = ["A"] ∧ failed_tasks s = ["B"]
       ∧ (∀ tid, tid ∈ completed_tasks s → tid ∉ failed_tasks s)
       ∧ NoDup (dict_keys (tasks s)).
Proof.
  eexists. split; [vm_compute; reflexivity|].
  split; [reflexivity|]. split; [reflexivity|].
  match goal with
  | |- (∀ tid, tid ∈ completed_tasks ?s → _) ∧ _ =>
      pose proof (reachable_lists_invariant default_settings (N_decide, s)
                    (run_driver_reachable default_settings ∅ 5 one_ok_one_failed _
                       ltac:(vm_compute; reflexivity)))
        as (Hdisj & _ & Hkeys & _)
  end.
  split; [exact Hdisj | exact Hkeys].
Defined.

(** C8, as the code has it. In every configuration the driver reaches, a
    task's [error] is set exactly when its status is [FAILED] or
    [SKIPPED]: a retry clears the error, a skip keeps it. *)
Theorem reachable_error_iff_failed_or_skipped (settings : Settings)
    (c : Node * WorkflowState) (tid : string) (task : Task) :
  reachable settings c →
  dict_get tid (tasks c.2) = Some task →
  (error task ≠ None ↔ status task = FAILED ∨ status task = SKIPPED).
Proof.
  intros Hreach Hget. destruct (reachable_Inv settings c Hreach) as [_ [] _].
  by eapply wf_error0.
Qed.

Lemma reachable_error_iff_failed_or_skipped_witness :
  ∃ s task, run_driver default_settings ∅ 5 one_ok_one_failed = Some (N_decide, s)
            ∧ dict_get "B" (tasks s) = Some task
            ∧ status task = FAILED ∧ error task = Some "boom"
            ∧ (error task ≠ None ↔ status task = FAILED ∨ status task = SKIPPED).
Proof.
  eexists. eexists. split; [vm_compute; reflexivity|].
  split; [vm_compute; reflexivity|].
  split; [reflexivity|]. split; [reflexivity|].
  match goal with
  | |- error ?t ≠ None ↔ _ =>
      exact (reachable_error_iff_failed_or_skipped default_settings (N_decide, _) "B" t
               (run_driver_reachable default_settings ∅ 5 one_ok_one_failed _
                  ltac:(vm_compute; reflexivity))
               ltac:(vm_compute; reflexivity))
  end.
Defined.

(** C8, as stated, fails: after a failure and a [retry] decision the
    driver is in a state whose task is [RETRYING] with no error, and after
    a [skip] decision in a state whose task is [SKIPPED] with its error. *)
Lemma error_iff_failed_or_retrying_counterexample :
  (∃ s task, run_driver default_settings ∅ 5 failed_then_retried = Some (N_decide, s)
             ∧ dict_get "A" (tasks s) = Some task
             ∧ status task = RETRYING ∧ error task = None)
  ∧ (∃ s task, run_driver default_settings ∅ 5 failed_then_skipped = Some (N_decide, s)
               ∧ dict_get "A" (tasks s) = Some task
               ∧ status task = SKIPPED ∧ error task = Some "boom")
  ∧ ¬ (∀ c tid task,
         reachable default_settings c → dict_get tid (tasks c.2) = Some task →
         (error task ≠ None ↔ status task = FAILED ∨ status task = RETRYING)).
Proof.
  assert (Hretry : ∃ s task,
             run_driver default_settings ∅ 5 failed_then_retried = Some (N_decide, s)
             ∧ dict_get "A" (tasks s) = Some task
             ∧ status task = RETRYING ∧ error task = None).
  { eexists. eexists. split; [vm_compute; reflexivity|].
    split; [vm_compute; reflexivity|]. split; reflexivity. }
  split; [exact Hretry|]. split.
  - eexists. eexists. split; [vm_compute; reflexivity|].
    split; [vm_compute; reflexivity|]. split; reflexivity.
  - intros Hclaim. destruct Hretry as (s & task & Hrun & Hget & Hst & Herr).
    apply run_driver_reachable in Hrun.
    destruct (Hclaim (N_decide, s) "A" task Hrun Hget) as [_ Hback].
    apply Hback; [right; exact Hst | exact Herr].
Qed.

(** ** The failure-handling step *)

Lemma first_retryable_exhausted settings state failed :
  (∀ tid, tid ∈ failed →
     ∃ task, dict_get tid (tasks state) = Some task
             ∧ max_retries settings ≤ retry_count task) →
  first_retryable settings state failed = Ret None.
Proof.
  induction failed as [|x rest IH]; intros Hall; [reflexivity|].
  destruct (Hall x) as (task & Hget & Hrc); [apply list_elem_of_here|].
  simpl. unfold getitem. rewrite Hget, bind_unfold. simpl.
  replace (retry_count task <? max_retries settings) with false by (symmetry; lia).
  apply IH. intros tid Hin. apply Hall. by apply list_elem_of_further.
Qed.

(** The retry policy's hard ceiling: at or past the budget configured in
    [metadata] (3 when unset), [handle_failure] answers [fail_workflow]
    itself. *)
Lemma handle_failure_hard_ceiling task err state rc m :
  as_int (default (VInt 3) (metadata (context state) !! "max_retries")) = Some m →
  m ≤ rc →
  ∃ reason, handle_failure task err state rc = Ret (decision "fail_workflow" reason).
Proof.
  intros Hm Hle. unfold handle_failure. rewrite Hm.
  replace (m <=? rc) with true by (symmetry; lia). eauto.
Qed.

(** C1, as the code has it. When [failed_tasks] is not empty and every
    failed task has used up its retries ([retry_count >= max_retries]),
    the failure-handling step never consults the advisor, does not raise,
    and its every result sets the context status to ["failed"]. *)
Theorem handle_failure_all_exhausted (settings : Settings) (state : WorkflowState) :
  failed_tasks state ≠ [] →
  (∀ tid, tid ∈ failed_tasks state →
     ∃ task, dict_get tid (tasks state) = Some task
             ∧ max_retries settings ≤ retry_count task) →
  _handle_failure_node settings state = Now (λ t, Ret (fail_workflow_update state t))
  ∧ never_advises (_handle_failure_node settings state)
  ∧ never_raises (_handle_failure_node settings state)
  ∧ (∀ t, yields (_handle_failure_node settings state) (fail_workflow_update state t))
  ∧ (∀ u, yields (_handle_failure_node settings state) u →
       ctx_status (context (apply_update state u)) = "failed").
Proof.
  intros Hne Hall.
  assert (Heq : _handle_failure_node settings state
                = Now (λ t, Ret (fail_workflow_update state t))).
  { unfold _handle_failure_node. rewrite bind_unfold.
    rewrite (first_retryable_exhausted settings state (failed_tasks state) Hall).
    destruct (failed_tasks state); [done | reflexivity]. }
  split; [exact Heq|]. rewrite Heq. simpl.
  split; [done|]. split; [done|]. split.
  - intros t. apply yields_Now with (t := t). constructor.
  - intros u Hu. apply yields_Now_inv in Hu as [t Hu].
    by apply yields_Ret_inv in Hu as <-.
Qed.

Lemma handle_failure_all_exhausted_witness :
  let state := state_with [("A", task_in "A" FAILED [] 3 (Some "boom"))] [] [] ["A"] in
  never_advises (_handle_failure_node default_settings state)
  ∧ ∀ u, yields (_handle_failure_node default_settings state) u →
         ctx_status (context (apply_update state u)) = "failed".
Proof.
  intros state.
  assert (Hne : failed_tasks state ≠ []) by discriminate.
  assert (Hall : ∀ tid, tid ∈ failed_tasks state →
            ∃ task, dict_get tid (tasks state) = Some task
                    ∧ max_retries default_settings ≤ retry_count task).
  { intros tid Hin. apply list_elem_of_singleton in Hin as ->.
    eexists. split; [reflexivity|]. simpl. lia. }
  destruct (handle_failure_all_exhausted default_settings state Hne Hall)
    as (_ & Hadv & _ & _ & Hst).
  split; [exact Hadv | exact Hst].
Defined.

(** C1, as stated, fails.  With [max_retries = 3], in a state whose
    failed tasks are [A] with [retry_count = 3] and [B] with
    [retry_count = 0], the failure-handling step consults the advisor
    about [B], and on a [retry] answer the context status stays
    ["running"].  The driver reaches such states: with a budget of one
    retry it comes to the failure-handling step with [A] exhausted and
    [B] not, and the step consults the advisor there too. *)
Lemma handle_failure_exhausted_counterexample :
  (let state := state_with [("A", task_in "A" FAILED [] 3 (Some "boom"));
                            ("B", task_in "B" FAILED [] 0 (Some "boom"))]
                  [] [] ["A"; "B"] in
   (∃ task, "A" ∈ failed_tasks state ∧ dict_get "A" (tasks state) = Some task
            ∧ retry_count task = max_retries default_settings)
   ∧ ¬ never_advises (_handle_failure_node default_settings state)
   ∧ ∃ u, yields (_handle_failure_node default_settings state) u
          ∧ ctx_status (context (apply_update state u)) = "running")
  ∧ ∃ s task,
      run_driver one_retry one_retry_config 10 exhaust_one_of_two
        = Some (N_handle_failure, s)
      ∧ "A" ∈ failed_tasks s
      ∧ dict_get "A" (tasks s) = Some task
      ∧ retry_count task = max_retries one_retry
      ∧ ¬ never_advises (_handle_failure_node one_retry s)
      ∧ ∃ u, yields (_handle_failure_node one_retry s) u
             ∧ ctx_status (context (apply_update s u)) = "running".
Proof.
  split.
  - intros state. split.
    { eexists. split; [apply list_elem_of_here|]. split; reflexivity. }
    split.
    + intros H. vm_compute in H. exact H.
    + eexists. split.
      * apply (run_script_yields _ [advice "retry"] _ []). vm_compute. reflexivity.
      * reflexivity.
  - eexists. eexists. split; [vm_compute; reflexivity|].
    split; [apply list_elem_of_further, list_elem_of_here|].
    split; [vm_compute; reflexivity|]. split; [reflexivity|]. split.
    + intros H. vm_compute in H. exact H.
    + eexists. split.
      * apply (run_script_yields _ [advice "retry"] _ []). vm_compute. reflexivity.
      * reflexivity.
Qed.

(** The search for the task to retry asks nothing of the world. *)
Lemma first_retryable_pure settings state failed :
  (∃ tid task, first_retryable settings state failed = Ret (Some tid)
               ∧ tid ∈ failed ∧ dict_get tid (tasks state) = Some task
               ∧ retry_count task < max_retries settings)
  ∨ first_retryable settings state failed = Ret None
  ∨ ∃ e, first_retryable settings state failed = Raise e.
Proof.
  induction failed as [|x rest IH]; simpl; [right; left; reflexivity|].
  unfold getitem. destruct (dict_get x (tasks state)) as [task|] eqn:Hget;
    rewrite bind_unfold; simpl; [|right; right; eauto].
  destruct (retry_count task <? max_retries settings) eqn:E.
  - left. exists x, task. split; [reflexivity|]. split; [apply list_elem_of_here|].
    split; [done | lia].
  - destruct IH as [(tid & task' & Heq & Hin & Hg & Hrc)|[Heq|[e Heq]]].
    + left. exists tid, task'. split; [done|]. split; [by apply list_elem_of_further | done].
    + right. left. done.
    + right. right. eauto.
Qed.

(** The search stops at the first failed id whose task has budget. *)
Lemma first_retryable_first settings state pre tid post task :
  (∀ x, x ∈ pre → ∃ tx, dict_get x (tasks state) = Some tx
                         ∧ max_retries settings ≤ retry_count tx) →
  dict_get tid (tasks state) = Some task →
  retry_count task < max_retries settings →
  first_retryable settings state (pre ++ tid :: post) = Ret (Some tid).
Proof.
  intros Hpre Hget Hrc. induction pre as [|x pre IH]; simpl.
  - unfold getitem. rewrite Hget, bind_unfold. simpl.
    by replace (retry_count task <? max_retries settings) with true by (symmetry; lia).
  - destruct (Hpre x (list_elem_of_here _ _)) as (tx & Hx & Hle).
    unfold getitem. rewrite Hx, bind_unfold. simpl.
    replace (retry_count tx <? max_retries settings) with false by (symmetry; lia).
    apply IH. intros y Hy. apply Hpre. by apply list_elem_of_further.
Qed.

Lemma first_retryable_split settings state failed tid :
  first_retryable settings state failed = Ret (Some tid) →
  ∃ pre post task,
    failed = (pre ++ tid :: post)%list
    ∧ (∀ x, x ∈ pre → ∃ tx, dict_get x (tasks state) = Some tx
                             ∧ max_retries settings ≤ retry_count tx)
    ∧ dict_get tid (tasks state) = Some task
    ∧ retry_count task < max_retries settings.
Proof.
  induction failed as [|x rest IH]; simpl; [discriminate|].
  unfold getitem. destruct (dict_get x (tasks state)) as [tx|] eqn:Hx;
    rewrite bind_unfold; simpl; [|discriminate].
  destruct (retry_count tx <? max_retries settings) eqn:E.
  - intros [= <-]. exists [], rest, tx. split; [reflexivity|].
    split; [intros y Hy; by apply not_elem_of_nil in Hy|]. split; [done | lia].
  - intros H. destruct (IH H) as (pre & post & task & -> & Hpre & Hget & Hrc).
    exists (x :: pre), post, task. split; [reflexivity|]. split; [|done].
    intros y Hy. apply elem_of_cons in Hy as [->|Hy]; [|by apply Hpre].
    exists tx. split; [done | lia].
Qed.

(** What [[x for x in l if x != y]] leaves of a list. *)
Lemma remove_id_absent (y : string) (l : list string) : y ∉ l → remove_id y l = l.
Proof.
  unfold remove_id. induction l as [|x l IH]; intros Hy; [reflexivity|].
  apply not_elem_of_cons in Hy as [Hxy Hl].
  rewrite filter_cons_True by (intros ->; done). by rewrite IH.
Qed.

Lemma remove_id_split (y : string) (pre post : list string) :
  y ∉ pre → y ∉ post → remove_id y (pre ++ y :: post) = (pre ++ post)%list.
Proof.
  intros Hpre Hpost. unfold remove_id.
  rewrite filter_app, filter_cons_False by (intros H; by apply H).
  fold (remove_id y pre). fold (remove_id y post).
  by rewrite !remove_id_absent.
Qed.

(** C7. Take a state whose [failed_tasks] is [pre ++ tid :: post], where
    every task of [pre] has used up [settings.max_retries] and the task
    [tid] has not, [tid] is not the empty string, and the [retry_count] of
    [tid] is also below the integer [max_retries] of the context metadata
    (3 when unset): the failed task with retry budget that the step
    handles.  When the advisor answers with a decision whose action is
    ["retry"], the step returns an update that increments the task's
    [retry_count] by one, clears its [error], sets its status to
    [RETRYING], removes its id from [failed_tasks] and nothing else from
    it, makes [next_tasks] the list of that id alone, and changes no other
    task.  Conversely the advisor only ever answers about such a task. *)
Theorem handle_failure_retry (settings : Settings) (state : WorkflowState) (d : Value) :
  py_getitem d "action" = Ret (VStr "retry") →
  (∀ pre tid post task m,
     failed_tasks state = (pre ++ tid :: post)%list →
     (∀ x, x ∈ pre → ∃ tx, dict_get x (tasks state) = Some tx
                            ∧ max_retries settings ≤ retry_count tx) →
     dict_get tid (tasks state) = Some task →
     retry_count task < max_retries settings →
     tid ≠ "" →
     as_int (default (VInt 3) (metadata (context state) !! "max_retries")) = Some m →
     retry_count task < m →
     ∃ u task',
       run_script (_handle_failure_node settings state) [R_advice (inl d)]
       = Some (inr u, [])
       ∧ dict_get tid (tasks (apply_update state u)) = Some task'
       ∧ retry_count task' = retry_count task + 1
       ∧ error task' = None
       ∧ status task' = RETRYING
       ∧ (tid ∉ failed_tasks (apply_update state u))
       ∧ (∀ x, x ≠ tid →
            (x ∈ failed_tasks (apply_update state u) ↔ x ∈ failed_tasks state))
       ∧ (tid ∉ post → failed_tasks (apply_update state u) = (pre ++ post)%list)
       ∧ next_tasks (apply_update state u) = [tid]
       ∧ (∀ other, other ≠ tid →
            dict_get other (tasks (apply_update state u)) = dict_get other (tasks state))
       ∧ completed_tasks (apply_update state u) = completed_tasks state
       ∧ context (apply_update state u) = context state)
  ∧ (∀ u, run_script (_handle_failure_node settings state) [R_advice (inl d)]
          = Some (inr u, []) →
       ∃ pre tid post task m,
         failed_tasks state = (pre ++ tid :: post)%list
         ∧ (∀ x, x ∈ pre → ∃ tx, dict_get x (tasks state) = Some tx
                                  ∧ max_retries settings ≤ retry_count tx)
         ∧ dict_get tid (tasks state) = Some task
         ∧ retry_count task < max_retries settings
         ∧ tid ≠ ""
         ∧ as_int (default (VInt 3) (metadata (context state) !! "max_retries")) = Some m
         ∧ retry_count task < m).
Proof.
  intros Haction. split.
  - intros pre tid post task m Hfailed Hpre Hget Hrc Hne Hm Hrcm.
    assert (Hfirst : first_retryable settings state (failed_tasks state) = Ret (Some tid))
      by (rewrite Hfailed; by apply (first_retryable_first _ _ _ _ _ task)).
    assert (Hnotpre : tid ∉ pre).
    { intros Hin. destruct (Hpre tid Hin) as (tx & Hx & Hle).
      rewrite Hget in Hx. injection Hx as <-. lia. }
    exists (retry_update state tid
              (set_error None (set_status RETRYING
                 (set_retry_count (retry_count task + 1) task)))).
    eexists. split.
    { unfold _handle_failure_node.
      destruct (failed_tasks state) as [|f0 frest] eqn:Hf; [by destruct pre|].
      rewrite bind_unfold, Hfirst. simpl.
      rewrite bool_decide_eq_false_2 by done.
      unfold getitem. rewrite Hget. simpl. unfold handle_failure. rewrite Hm.
      replace (m <=? retry_count task) with false by (symmetry; lia).
      simpl. rewrite Haction. reflexivity. }
    cbn [apply_update retry_update u_tasks u_failed_tasks u_next_tasks u_context
         u_completed_tasks default tasks failed_tasks next_tasks completed_tasks context].
    split; [apply dict_get_set_eq|].
    split; [reflexivity|]. split; [reflexivity|]. split; [reflexivity|].
    split; [intros Hin; by apply remove_id_elem in Hin as [? _]|].
    split.
    { intros x Hx. split; intros Hin.
      - by apply remove_id_elem in Hin as [_ ?].
      - by apply remove_id_elem. }
    split; [intros Hpost; rewrite Hfailed; by apply remove_id_split|].
    split; [reflexivity|]. split; [|done].
    intros other Ho. by apply dict_get_set_ne.
  - intros u Hrun. unfold _handle_failure_node in Hrun.
    destruct (failed_tasks state) as [|f0 frest] eqn:Hfailed; [discriminate Hrun|].
    rewrite <- Hfailed in *. rewrite bind_unfold in Hrun.
    destruct (first_retryable_pure settings state (failed_tasks state))
      as [(tid & task & Heq & Hin & Hget & Hrc)|[Heq|[e Heq]]];
      rewrite Heq in Hrun; simpl in Hrun; [|discriminate Hrun|discriminate Hrun].
    case_bool_decide as Hne; [discriminate Hrun|].
    unfold getitem in Hrun. rewrite Hget in Hrun. rewrite bind_unfold in Hrun.
    simpl in Hrun. unfold handle_failure in Hrun.
    destruct (as_int _) as [m|] eqn:Hm; [|discriminate Hrun].
    destruct (m <=? retry_count task) eqn:Hle; [discriminate Hrun|].
    destruct (first_retryable_split _ _ _ _ Heq)
      as (pre & post & task0 & Hsplit & Hpre & Hget0 & Hrc0).
    exists pre, tid, post, task, m.
    split; [done|]. split; [done|]. split; [done|]. split; [done|]. split; [done|].
    split; [done | lia].
Qed.

Lemma handle_failure_retry_witness :
  let state :=
    state_with [("X", task_in "X" FAILED [] 3 (Some "boom"));
                ("A", task_in "A" FAILED [] 1 (Some "boom"));
                ("B", task_in "B" FAILED [] 0 (Some "boom"))] [] [] ["X"; "A"; "B"] in
  ∃ u task',
    run_script (_handle_failure_node default_settings state) [advice "retry"]
      = Some (inr u, [])
    ∧ dict_get "A" (tasks (apply_update state u)) = Some task'
    ∧ retry_count task' = 2 ∧ error task' = None ∧ status task' = RETRYING
    ∧ failed_tasks (apply_update state u) = ["X"; "B"]
    ∧ next_tasks (apply_update state u) = ["A"].
Proof.
  intros state.
  destruct (proj1 (handle_failure_retry default_settings state
                     (decision "retry" "advised") eq_refl)
              ["X"] "A" ["B"] (task_in "A" FAILED [] 1 (Some "boom")) 3)
    as (u & task' & Hrun & Hget & Hrc & Herr & Hst & _ & _ & Hf & Hn & _).
  - reflexivity.
  - intros x Hx. apply list_elem_of_singleton in Hx as ->.
    eexists. split; [reflexivity | simpl; lia].
  - reflexivity.
  - simpl. lia.
  - discriminate.
  - reflexivity.
  - simpl. lia.
  - exists u, task'. split; [exact Hrun|]. split; [exact Hget|].
    split; [exact Hrc|]. split; [exact Herr|]. split; [exact Hst|].
    split; [|exact Hn]. apply Hf.
    intros Hin. apply list_elem_of_singleton in Hin. discriminate Hin.
Defined.

(** ** What the nodes do to [errors] and to the context status *)

Lemma node_errors_and_status settings n state u :
  yields (node_fn settings n state) u →
  (n ≠ N_plan → errors (apply_update state u) = errors state)
  ∧ (ctx_status (context state) = "failed" →
     ctx_status (context (apply_update state u)) = "failed").
Proof.
  intros Hy. destruct n; simpl in Hy.
  - apply plan_node_yields in Hy as [(planned & task_dict & Hb & ->)|(e & t & ->)];
      split; done.
  - apply execute_node_yields in Hy
      as [[_ ->]|(tid & rest & task & ts & te & tl & res & _ & _ & [[_ ->]|(_ & _ & ->)])];
      split; done.
  - apply decide_node_yields in Hy as (l & -> & _). split; done.
  - apply handle_failure_node_yields in Hy
      as [[_ ->]|[[t ->]|(tid & task & _ & _ & _ & [->| ->])]]; split; done.
  - rewrite complete_node_eq in Hy. apply yields_Now_inv in Hy as [t Hy].
    apply yields_Ret_inv in Hy as <-. split; [done|]. simpl. intros ->. done.
  - apply yields_Ret_inv in Hy as <-. split; done.
Qed.

Lemma errors_frozen_after_plan settings c c' :
  rtc (graph_step settings) c c' → c.1 ≠ N_plan →
  errors c'.2 = errors c.2 ∧ c'.1 ≠ N_plan.
Proof.
  induction 1 as [c|c c1 c2 Hstep _ IH]; intros Hn; [done|].
  destruct Hstep as [n state u n' _ Hu Hsucc]. simpl in *.
  destruct IH as [He Hn'].
  - simpl. by eapply successor_not_plan.
  - split; [|done]. rewrite He. simpl.
    by apply (node_errors_and_status settings n state u Hu).
Qed.


Lemma should_continue_empty settings state label :
  next_tasks state = [] →
  yields (_should_continue settings state) label →
  label = "complete" ∨ label = "handle_failure".
Proof.
  unfold _should_continue. intros -> H. inv_bind H failed Hf.
  destruct failed; apply yields_Ret_inv in H as <-; auto.
Qed.

(** ** Readiness *)

Section ChainRun.
Context (settings : Settings) (wid g : string) (t0 : Time)
        (config : gmap string Value) (clock : nat → Time) (d1 d2 d3 : Value).

Local Abbreviation run := (chain_run settings wid g t0 config clock d1 d2 d3).

Lemma chain_run_first :
  ∃ s, run 2%nat = Some (N_execute, s) ∧ next_tasks s = ["A"] ∧ completed_tasks s = [].
Proof. eexists. split; [vm_compute; reflexivity|]. split; reflexivity. Qed.

Lemma chain_run_second :
  ∃ s, run 4%nat = Some (N_execute, s)
       ∧ next_tasks s = ["B"] ∧ completed_tasks s = ["A"].
Proof. eexists. split; [vm_compute; reflexivity|]. split; reflexivity. Qed.

Lemma chain_run_third :
  ∃ s, run 6%nat = Some (N_execute, s)
       ∧ next_tasks s = ["C"] ∧ completed_tasks s = ["A"; "B"].
Proof. eexists. split; [vm_compute; reflexivity|]. split; reflexivity. Qed.

Lemma chain_run_done :
  ∃ s, run 8%nat = Some (N_complete, s)
       ∧ next_tasks s = [] ∧ completed_tasks s = ["A"; "B"; "C"].
Proof. eexists. split; [vm_compute; reflexivity|]. split; reflexivity. Qed.

Lemma chain_run_end :
  ∃ s, run 9%nat = Some (END, s) ∧ ctx_status (context s) = "completed".
Proof. eexists. split; [vm_compute; reflexivity|]. reflexivity. Qed.
End ChainRun.

(** C3. The Decide step always returns, and the [next_tasks] it returns
    hold a task id exactly when the id is not in [completed_tasks], not in
    [failed_tasks], and every id among its dependencies is in
    [completed_tasks].  For [A], [B] after [A], [C] after [A] and [B], with
    every dispatch succeeding, the step computes [A], then [B] once [A] is
    completed, then [C] once [B] is completed; after [C] the driver goes to
    the Complete step, which sets the status ["completed"]. *)
Theorem decide_ready_set :
  (∀ state, ∃ ready,
      _decide_node state = Ret (next_tasks_update ready)
      ∧ ∀ tid, tid ∈ ready ↔
          ∃ task, dict_get tid (tasks state) = Some task
                  ∧ (tid ∉ completed_tasks state) ∧ (tid ∉ failed_tasks state)
                  ∧ ∀ dep, dep ∈ dependencies task → dep ∈ completed_tasks state)
  ∧ (∀ settings wid g t0 config clock d1 d2 d3,
       ∃ s2 s4 s6 s8 s9,
         chain_run settings wid g t0 config clock d1 d2 d3 2 = Some (N_execute, s2)
         ∧ next_tasks s2 = ["A"] ∧ completed_tasks s2 = []
         ∧ chain_run settings wid g t0 config clock d1 d2 d3 4 = Some (N_execute, s4)
         ∧ next_tasks s4 = ["B"] ∧ completed_tasks s4 = ["A"]
         ∧ chain_run settings wid g t0 config clock d1 d2 d3 6 = Some (N_execute, s6)
         ∧ next_tasks s6 = ["C"] ∧ completed_tasks s6 = ["A"; "B"]
         ∧ chain_run settings wid g t0 config clock d1 d2 d3 8 = Some (N_complete, s8)
         ∧ next_tasks s8 = [] ∧ completed_tasks s8 = ["A"; "B"; "C"]
         ∧ chain_run settings wid g t0 config clock d1 d2 d3 9 = Some (END, s9)
         ∧ ctx_status (context s9) = "completed").
Proof.
  split; [exact decide_node_Ret|].
  intros settings wid g t0 config clock d1 d2 d3.
  destruct (chain_run_first settings wid g t0 config clock d1 d2 d3) as (s2 & ? & ? & ?).
  destruct (chain_run_second settings wid g t0 config clock d1 d2 d3) as (s4 & ? & ? & ?).
  destruct (chain_run_third settings wid g t0 config clock d1 d2 d3) as (s6 & ? & ? & ?).
  destruct (chain_run_done settings wid g t0 config clock d1 d2 d3) as (s8 & ? & ? & ?).
  destruct (chain_run_end settings wid g t0 config clock d1 d2 d3) as (s9 & ? & ?).
  exists s2, s4, s6, s8, s9. repeat split; assumption.
Qed.

(** C4, on the code. A task that fails and is skipped on the advisor's
    word is [SKIPPED] and out of [failed_tasks]; the next Decide step puts
    it back in [next_tasks], the Execute step dispatches it again, and its
    status changes to [COMPLETED]. *)
Theorem skipped_task_dispatched_again :
  ∃ s5 s6 s7 skipped rerun,
    run_driver default_settings ∅ 5 failed_then_skipped = Some (N_decide, s5)
    ∧ dict_get "A" (tasks s5) = Some skipped
    ∧ status skipped = SKIPPED
    ∧ failed_tasks s5 = [] ∧ completed_tasks s5 = []
    ∧ run_driver default_settings ∅ 6 failed_then_skipped = Some (N_execute, s6)
    ∧ next_tasks s6 = ["A"]
    ∧ run_driver default_settings ∅ 7 failed_then_skipped = Some (N_decide, s7)
    ∧ dict_get "A" (tasks s7) = Some rerun
    ∧ status rerun = COMPLETED
    ∧ completed_tasks s7 = ["A"].
Proof.
  eexists _, _, _, _, _.
  split; [vm_compute; reflexivity|]. split; [vm_compute; reflexivity|].
  split; [reflexivity|]. split; [reflexivity|]. split; [reflexivity|].
  split; [vm_compute; reflexivity|]. split; [reflexivity|].
  split; [vm_compute; reflexivity|]. split; [vm_compute; reflexivity|].
  split; reflexivity.
Qed.

(** ** A stalled workflow *)

(** C5, as the code has it. When every task that is neither completed
    nor failed has a dependency that is not completed, and such a task
    remains, the Decide step returns an empty [next_tasks] and nothing
    else; the driver goes on to the failure-handling step or to the
    Complete step, and however the run continues the [errors] log stays
    what it was. *)
Theorem stalled_not_surfaced (settings : Settings) (state : WorkflowState) :
  (∀ tid task,
     dict_get tid (tasks state) = Some task →
     tid ∉ completed_tasks state → tid ∉ failed_tasks state →
     ∃ dep, dep ∈ dependencies task ∧ (dep ∉ completed_tasks state)) →
  (∃ tid, tid ∈ dict_keys (tasks state)
          ∧ (tid ∉ completed_tasks state) ∧ (tid ∉ failed_tasks state)) →
  _decide_node state = Ret (next_tasks_update [])
  ∧ errors (apply_update state (next_tasks_update [])) = errors state
  ∧ (∀ n', yields (successor settings N_decide (apply_update state (next_tasks_update []))) n' →
       n' = N_handle_failure ∨ n' = N_complete)
  ∧ (∀ c', rtc (graph_step settings) (N_decide, state) c' → errors c'.2 = errors state).
Proof.
  intros Hblocked _. split; [|split; [reflexivity|split]].
  - destruct (decide_node_Ret state) as (l & Heq & Hspec).
    destruct l as [|x l]; [exact Heq|]. exfalso.
    destruct (proj1 (Hspec x)) as (task & Hget & Hc & Hf & Hdeps); [apply list_elem_of_here|].
    destruct (Hblocked x task Hget Hc Hf) as (dep & Hdep & Hnot). auto.
  - intros n' H. simpl in H. inv_bind H label Hl.
    apply should_continue_empty in Hl; [|reflexivity].
    destruct Hl as [-> | ->]; apply yields_Ret_inv in H as <-; auto.
  - intros c' Hrtc.
    by destruct (errors_frozen_after_plan settings _ _ Hrtc) as [-> _].
Qed.

Lemma stalled_not_surfaced_witness :
  let state := state_with [("A", task_in "A" COMPLETED [] 0 None);
                           ("B", task_in "B" PENDING ["Z"] 0 None)] [] ["A"] [] in
  _decide_node state = Ret (next_tasks_update [])
  ∧ ∀ c', rtc (graph_step default_settings) (N_decide, state) c' →
          errors c'.2 = errors state.
Proof.
  intros state.
  assert (Hblocked : ∀ tid task,
            dict_get tid (tasks state) = Some task →
            tid ∉ completed_tasks state → tid ∉ failed_tasks state →
            ∃ dep, dep ∈ dependencies task ∧ (dep ∉ completed_tasks state)).
  { intros tid task Hget Hc _. simpl in Hget.
    case_bool_decide as HA; [subst tid; exfalso; apply Hc, list_elem_of_here|].
    case_bool_decide as HB; [|discriminate Hget].
    injection Hget as <-. exists "Z". split; [apply list_elem_of_here|].
    intros H. apply list_elem_of_singleton in H. discriminate H. }
  assert (Hremains : ∃ tid, tid ∈ dict_keys (tasks state)
                            ∧ (tid ∉ completed_tasks state) ∧ (tid ∉ failed_tasks state)).
  { exists "B". split; [apply list_elem_of_further, list_elem_of_here|].
    split; intros H; [apply list_elem_of_singleton in H; discriminate H | inversion H]. }
  destruct (stalled_not_surfaced default_settings state Hblocked Hremains)
    as (Hdecide & _ & _ & Herrors).
  split; [exact Hdecide | exact Herrors].
Defined.

(** C5, as stated, fails: with [A] completed and [B] waiting for an id
    that is no task, the Decide step finds nothing ready although [B] is
    neither completed nor failed; the run then ends with status
    ["completed"] and an empty [errors] log. *)
Lemma stalled_surfaced_counterexample :
  ∃ s3 s5 blocked,
    run_driver default_settings ∅ 3 stalled_run = Some (N_decide, s3)
    ∧ _decide_node s3 = Ret (next_tasks_update [])
    ∧ dict_get "B" (tasks s3) = Some blocked
    ∧ dependencies blocked = ["Z"] ∧ dict_get "Z" (tasks s3) = None
    ∧ ("B" ∉ completed_tasks s3) ∧ ("B" ∉ failed_tasks s3)
    ∧ run_driver default_settings ∅ 5 stalled_run = Some (END, s5)
    ∧ errors s5 = []
    ∧ ctx_status (context s5) = "completed".
Proof.
  eexists _, _, _. split; [vm_compute; reflexivity|].
  split; [vm_compute; reflexivity|]. split; [vm_compute; reflexivity|].
  split; [reflexivity|]. split; [reflexivity|]. split.
  { intros H. apply list_elem_of_singleton in H. discriminate H. }
  split; [intros H; inversion H|].
  split; [vm_compute; reflexivity|]. split; reflexivity.
Qed.

(** * Further properties of the engine *)

(** ** Where the driver can go next *)

Lemma retryable_yields settings state failed r :
  yields (retryable settings state failed) r →
  (∀ tid, tid ∈ failed → ∃ task, dict_get tid (tasks state) = Some task)
  ∧ ∀ tid, tid ∈ r ↔
      tid ∈ failed ∧ ∃ task, dict_get tid (tasks state) = Some task
                             ∧ retry_count task < max_retries settings.
Proof.
  revert r. induction failed as [|x rest IH]; simpl; intros r H.
  - apply yields_Ret_inv in H as <-. split; [intros tid Hin; inversion Hin|].
    intros tid. split; [inversion 1 | intros [Hin _]; inversion Hin].
  - inv_bind H task Htask. apply yields_getitem in Htask.
    inv_bind H more Hmore. apply IH in Hmore as [Hall Hspec].
    apply yields_Ret_inv in H. split.
    + intros tid Hin. apply elem_of_cons in Hin as [->|Hin]; eauto.
    + intros tid. destruct (retry_count task <? max_retries settings) eqn:E; subst r.
      * rewrite !elem_of_cons, Hspec. split.
        -- intros [->|(Hin & t & Ht & Hrc)]; [|eauto 10].
           split; [by left|]. exists task. split; [done | lia].
        -- intros ([->|Hin] & t & Ht & Hrc); [by left | right; eauto].
      * rewrite elem_of_cons, Hspec. split; [intros (Hin & t & Ht & Hrc); eauto 10|].
        intros ([->|Hin] & t & Ht & Hrc); [|eauto].
        assert (t = task) as -> by congruence. lia.
Qed.

(** The edges of the graph, read backwards. *)
Lemma successor_cases settings n state n' :
  yields (successor settings n state) n' →
  match n' with
  | N_plan => False
  | N_decide => n = N_plan ∨ n = N_execute ∨ n = N_handle_failure
  | N_execute => n = N_decide ∧ next_tasks state ≠ []
  | N_handle_failure =>
      n = N_decide ∧ next_tasks state = []
      ∧ ∃ tid task, tid ∈ failed_tasks state ∧ dict_get tid (tasks state) = Some task
                    ∧ retry_count task < max_retries settings
  | N_complete =>
      n = N_decide ∧ next_tasks state = []
      ∧ ∀ tid task, tid ∈ failed_tasks state → dict_get tid (tasks state) = Some task →
          max_retries settings ≤ retry_count task
  | END => n = N_complete ∨ n = END
  end.
Proof.
  destruct n; simpl; intros H; try (apply yields_Ret_inv in H as <-; auto).
  inv_bind H label Hl. unfold _should_continue in Hl.
  destruct (next_tasks state) as [|x rest] eqn:Hnext.
  - inv_bind Hl failed Hf. apply retryable_yields in Hf as [Hall Hspec].
    destruct failed as [|f0 frest]; apply yields_Ret_inv in Hl as <-;
      apply yields_Ret_inv in H as <-.
    + split; [done|]. split; [done|]. intros tid task Hin Hget.
      destruct (decide (max_retries settings ≤ retry_count task)) as [|Hlt]; [done|].
      exfalso. assert (Hmem : tid ∈ @nil string) by (apply Hspec; split; [done|]; exists task; split; [done | lia]).
      inversion Hmem.
    + split; [done|]. split; [done|].
      destruct (proj1 (Hspec f0)) as (Hin & task & Hget & Hrc); [apply list_elem_of_here|].
      eauto.
  - apply yields_Ret_inv in Hl as <-. apply yields_Ret_inv in H as <-. done.
Qed.

(** ** The further invariants are kept *)

Lemma make_task_fresh task_data task :
  yields (make_task task_data) task →
  status task = PENDING ∧ retry_count task = 0
  ∧ dependencies task = td_dependencies task_data ∧ result task = VNone.
Proof.
  unfold make_task. intros H.
  inv_bind H n Hn. inv_bind H d Hd. inv_bind H a Ha. inv_bind H c Hc.
  by apply yields_Ret_inv in H as <-.
Qed.

Lemma build_task_dict_fresh planned :
  ∀ acc task_dict,
    yields (build_task_dict planned acc) task_dict →
    (∀ tid task, dict_get tid acc = Some task →
       status task = PENDING ∧ retry_count task = 0) →
    ∀ tid task, dict_get tid task_dict = Some task →
      status task = PENDING ∧ retry_count task = 0.
Proof.
  induction planned as [|td rest IH]; simpl; intros acc task_dict H Hacc.
  - by apply yields_Ret_inv in H as <-.
  - inv_bind H task Htask. apply make_task_fresh in Htask as (Hst & Hrc & _).
    eapply IH; [exact H|].
    intros tid task' Hget. destruct (decide (task_id task = tid)) as [<-|Hne].
    + rewrite dict_get_set_eq in Hget. injection Hget as <-. done.
    + rewrite dict_get_set_ne in Hget by done. eauto.
Qed.

Lemma node_keeps_task_facts settings n state u :
  Inv (n, state) → run_wf settings (n, state) →
  yields (node_fn settings n state) u →
  ∀ tid task, dict_get tid (tasks (apply_update state u)) = Some task →
    0 ≤ retry_count task ≤ Z.max 0 (max_retries settings)
    ∧ (tid ∈ completed_tasks (apply_update state u) ↔ status task = COMPLETED)
    ∧ status task ≠ IN_PROGRESS
    ∧ (status task ≠ PENDING →
       ∀ dep, dep ∈ dependencies task → dep ∈ completed_tasks (apply_update state u)).
Proof.
  intros [Hl Ht Hplan] [Hretry Hcompleted Hprog Hstarted Hexec _ _] Hy. simpl in *.
  assert (Hold : ∀ tid task, dict_get tid (tasks state) = Some task →
            0 ≤ retry_count task ≤ Z.max 0 (max_retries settings)
            ∧ (tid ∈ completed_tasks state ↔ status task = COMPLETED)
            ∧ status task ≠ IN_PROGRESS
            ∧ (status task ≠ PENDING →
               ∀ dep, dep ∈ dependencies task → dep ∈ completed_tasks state))
    by (intros tid task Hget; eauto 10).
  destruct n; simpl in Hy.
  - destruct Hplan as (_ & Hc & _ & _); [done|].
    apply plan_node_yields in Hy as [(planned & task_dict & Hb & ->)|(e & t & ->)];
      simpl; [|exact Hold].
    intros tid task Hget. rewrite Hc.
    destruct (build_task_dict_fresh planned [] task_dict Hb
                ltac:(intros ? ? H; discriminate H) tid task Hget) as [Hst Hrc].
    rewrite Hst, Hrc. split; [lia|]. split; [|done].
    split; [intros H; inversion H | discriminate].
  - apply execute_node_yields in Hy
      as [[_ ->]|(tid0 & rest & task0 & ts & te & tl & res & Hnext & Hget0 & Hcase)].
    { exact Hold. }
    destruct (wf_next _ Hl tid0) as (_ & Hnc & _); [rewrite Hnext; apply list_elem_of_here|].
    destruct (Hexec eq_refl) as [_ Hready].
    destruct (Hready tid0) as (task1 & Hget1 & _ & _ & Hdeps);
      [rewrite Hnext; apply list_elem_of_here|].
    assert (task1 = task0) as -> by congruence.
    destruct (Hold tid0 task0 Hget0) as (Hrc0 & _).
    destruct Hcase as [[_ ->]|(_ & _ & ->)]; simpl; intros tid task Hget.
    + dict_cases tid0 tid Hget.
      * simpl. split; [done|]. split; [|split; [done|]].
        -- split; [done|]. intros _. apply elem_of_app. right. apply list_elem_of_here.
        -- intros _ dep Hdep. apply elem_of_app. left. auto.
      * destruct (Hold tid task Hget) as (? & Hc & ? & Hs). split; [done|].
        split; [|split; [done|]].
        -- rewrite elem_of_app, list_elem_of_singleton, <- Hc. split; [intros [?|?]; done | auto].
        -- intros Hp dep Hdep. apply elem_of_app. left. auto.
    + dict_cases tid0 tid Hget.
      * simpl. split; [done|]. split; [|split; [done|auto]].
        split; [done | discriminate].
      * exact (Hold tid task Hget).
  - apply decide_node_yields in Hy as (l & -> & _). exact Hold.
  - apply handle_failure_node_yields in Hy
      as [[_ ->]|[[t ->]|(tid0 & task0 & Hin & Hget0 & Hrc0 & Hcase)]].
    { exact Hold. }
    { exact Hold. }
    destruct (Hold tid0 task0 Hget0) as (Hb0 & Hc0 & _ & Hs0).
    pose proof (wf_failed_status _ Ht tid0 task0 Hin Hget0) as Hfailed.
    assert (Hnc : tid0 ∉ completed_tasks state)
      by (intros Hc; by apply (wf_disjoint _ Hl tid0 Hc)).
    assert (Hdeps : ∀ dep, dep ∈ dependencies task0 → dep ∈ completed_tasks state)
      by (apply Hs0; rewrite Hfailed; discriminate).
    destruct Hcase as [->| ->]; simpl; intros tid task Hget;
      (dict_cases tid0 tid Hget; [|exact (Hold tid task Hget)]); simpl.
    + split; [lia|]. split; [|split; [done|auto]]. split; [done | discriminate].
    + split; [done|]. split; [|split; [done|auto]]. split; [done | discriminate].
  - rewrite complete_node_eq in Hy. apply yields_Now_inv in Hy as [t Hy].
    apply yields_Ret_inv in Hy as <-. exact Hold.
  - apply yields_Ret_inv in Hy as <-. exact Hold.
Qed.

Lemma run_wf_initial settings wid g t config :
  run_wf settings (N_plan, initial_state wid g t config).
Proof.
  split; simpl; try discriminate; intros tid task H; discriminate H.
Qed.

Lemma run_wf_step settings c c' :
  graph_step settings c c' → Inv c → run_wf settings c → run_wf settings c'.
Proof.
  intros [n state u n' Hn Hu Hsucc] HI HW.
  pose proof (node_keeps_task_facts settings n state u HI HW Hu) as Hfacts.
  pose proof (successor_cases settings n _ n' Hsucc) as Hcases.
  assert (Hdecide : n = N_decide →
            ∃ l, u = next_tasks_update l ∧ ∀ tid, tid ∈ l ↔ ready state tid).
  { intros ->. simpl in Hu. destruct (decide_node_Ret state) as (l & Heq & Hspec).
    rewrite Heq in Hu. apply yields_Ret_inv in Hu as <-. exists l. split; [done|].
    exact Hspec. }
  split; simpl.
  - intros tid task Hget. by apply (Hfacts tid task Hget).
  - intros tid task Hget. by apply (Hfacts tid task Hget).
  - intros tid task Hget. by apply (Hfacts tid task Hget).
  - intros tid task Hget. by apply (Hfacts tid task Hget).
  - intros ->. destruct Hcases as [Hnd Hne]. split; [exact Hne|].
    destruct (Hdecide Hnd) as (l & -> & Hspec). simpl. intros tid Hin.
    by apply Hspec in Hin.
  - intros ->. destruct Hcases as (_ & Hnil & Hex). split; [exact Hnil | exact Hex].
  - intros ->. destruct Hcases as (Hnd & Hnil & Hex). split; [exact Hnil|].
    split; [|exact Hex].
    destruct (Hdecide Hnd) as (l & -> & Hspec). simpl in Hnil. subst l.
    intros tid Hr. apply Hspec in Hr. inversion Hr.
Qed.

Lemma reachable_run_wf settings c : reachable settings c → run_wf settings c.
Proof.
  intros (wid & g & t & config & Hrtc).
  assert (H : Inv c ∧ run_wf settings c); [|by destruct H].
  revert c Hrtc. apply (rtc_ind_r (λ c, Inv c ∧ run_wf settings c)).
  - split; [apply Inv_initial | apply run_wf_initial].
  - intros y z _ Hstep [HI HW]. split; [by eapply Inv_step | by eapply run_wf_step].
Qed.

Lemma reachable_rtc settings c c' :
  reachable settings c → rtc (graph_step settings) c c' → reachable settings c'.
Proof.
  intros (wid & g & t & config & H) H'. exists wid, g, t, config. by etrans.
Qed.

(** ** The Complete step *)




(** ** Retry counts, statuses and counts along the driver's runs *)

(** X1. In every configuration the driver reaches, a task's
    [retry_count] is at least 0 and at most [max_retries] (at most 0 when
    [max_retries] is negative). *)
Theorem reachable_retry_count_bounded (settings : Settings)
    (c : Node * WorkflowState) (tid : string) (task : Task) :
  reachable settings c →
  dict_get tid (tasks c.2) = Some task →
  0 ≤ retry_count task ≤ Z.max 0 (max_retries settings).
Proof.
  intros Hreach Hget. by eapply (rw_retry _ _ (reachable_run_wf settings c Hreach)).
Qed.

Lemma reachable_retry_count_bounded_witness :
  ∃ s task, run_driver default_settings ∅ 5 failed_then_retried = Some (N_decide, s)
            ∧ dict_get "A" (tasks s) = Some task
            ∧ retry_count task = 1
            ∧ 0 ≤ retry_count task ≤ Z.max 0 (max_retries default_settings).
Proof.
  eexists. eexists. split; [vm_compute; reflexivity|].
  match goal with
  | |- dict_get _ (tasks ?s) = _ ∧ _ =>
      assert (Hreach : reachable default_settings (N_decide, s))
        by (apply (run_driver_reachable default_settings ∅ 5 failed_then_retried); vm_compute; reflexivity)
  end.
  split; [vm_compute; reflexivity|]. split; [reflexivity|].
  exact (reachable_retry_count_bounded default_settings _ "A" _ Hreach eq_refl).
Defined.

(** X2. In every configuration the driver reaches, a task is in
    [completed_tasks] exactly when its status is [COMPLETED], in
    [failed_tasks] exactly when its status is [FAILED], and no task is left
    [IN_PROGRESS] between two steps. *)
Theorem reachable_status_agrees_with_lists (settings : Settings)
    (c : Node * WorkflowState) (tid : string) (task : Task) :
  reachable settings c →
  dict_get tid (tasks c.2) = Some task →
  (tid ∈ completed_tasks c.2 ↔ status task = COMPLETED)
  ∧ (tid ∈ failed_tasks c.2 ↔ status task = FAILED)
  ∧ status task ≠ IN_PROGRESS.
Proof.
  intros Hreach Hget.
  destruct (reachable_run_wf settings c Hreach) as [_ Hc Hp _ _ _ _].
  destruct (reachable_Inv settings c Hreach) as [_ [Hfs Hsf _] _].
  split; [by apply Hc|]. split; [|by eapply Hp].
  split; [intros Hin; by eapply Hfs | by apply Hsf].
Qed.

Lemma reachable_status_agrees_with_lists_witness :
  ∃ s task, run_driver default_settings ∅ 5 one_ok_one_failed = Some (N_decide, s)
            ∧ dict_get "B" (tasks s) = Some task
            ∧ failed_tasks s = ["B"]
            ∧ ("B" ∈ failed_tasks s ↔ status task = FAILED).
Proof.
  eexists. eexists. split; [vm_compute; reflexivity|].
  match goal with
  | |- dict_get _ (tasks ?s) = _ ∧ _ =>
      assert (Hreach : reachable default_settings (N_decide, s))
        by (apply (run_driver_reachable default_settings ∅ 5 one_ok_one_failed); vm_compute; reflexivity)
  end.
  split; [vm_compute; reflexivity|]. split; [reflexivity|].
  exact (proj1 (proj2 (reachable_status_agrees_with_lists default_settings _ "B" _
                         Hreach eq_refl))).
Defined.

(** X3. In every configuration the driver reaches, the completed and the
    failed tasks together are no more than the tasks there are. *)
Theorem reachable_counts (settings : Settings) (c : Node * WorkflowState) :
  reachable settings c →
  (length (completed_tasks c.2) + length (failed_tasks c.2) ≤ length (tasks c.2))%nat.
Proof.
  intros Hreach. destruct (reachable_Inv settings c Hreach) as [[] _ _].
  assert (Hsub : (completed_tasks c.2 ++ failed_tasks c.2)%list ⊆+ dict_keys (tasks c.2)).
  { apply NoDup_submseteq.
    - apply NoDup_app. split; [done|]. split; [done|done].
    - intros x Hx. apply elem_of_app in Hx as [?|?]; auto. }
  apply submseteq_length in Hsub.
  unfold dict_keys in Hsub. by rewrite length_app, length_fmap in Hsub.
Qed.

Lemma reachable_counts_witness :
  ∃ s, run_driver default_settings ∅ 5 one_ok_one_failed = Some (N_decide, s)
       ∧ length (completed_tasks s) = 1%nat ∧ length (failed_tasks s) = 1%nat
       ∧ (length (completed_tasks s) + length (failed_tasks s) ≤ length (tasks s))%nat.
Proof.
  eexists. split; [vm_compute; reflexivity|].
  match goal with
  | |- length (completed_tasks ?s) = _ ∧ _ =>
      assert (Hreach : reachable default_settings (N_decide, s))
        by (apply (run_driver_reachable default_settings ∅ 5 one_ok_one_failed); vm_compute; reflexivity)
  end.
  split; [reflexivity|]. split; [reflexivity|].
  exact (reachable_counts default_settings _ Hreach).
Defined.

(** ** What holds when a node is about to run *)

(** X4. Whenever the driver is about to run the Execute step,
    [next_tasks] is not empty and the task it will dispatch (the first id)
    is a task that is neither completed nor failed, whose dependencies are
    all completed, and whose status is [PENDING], [RETRYING] or [SKIPPED]. *)
Theorem reachable_dispatch_guard (settings : Settings) (state : WorkflowState) :
  reachable settings (N_execute, state) →
  ∃ tid rest task,
    next_tasks state = tid :: rest
    ∧ dict_get tid (tasks state) = Some task
    ∧ (tid ∉ completed_tasks state) ∧ (tid ∉ failed_tasks state)
    ∧ (∀ dep, dep ∈ dependencies task → dep ∈ completed_tasks state)
    ∧ (status task = PENDING ∨ status task = RETRYING ∨ status task = SKIPPED).
Proof.
  intros Hreach.
  destruct (reachable_run_wf settings _ Hreach) as [_ Hc Hp _ Hexec _ _].
  destruct (reachable_Inv settings _ Hreach) as [_ [_ Hsf _] _]. simpl in *.
  destruct (Hexec eq_refl) as [Hne Hready].
  destruct (next_tasks state) as [|tid rest] eqn:Hnext; [done|].
  destruct (Hready tid) as (task & Hget & Hnc & Hnf & Hdeps);
    [rewrite ?Hnext; apply list_elem_of_here|].
  exists tid, rest, task. repeat split; try done.
  pose proof (Hp tid task Hget).
  assert (status task ≠ COMPLETED) by (intros Hs; by apply Hnc, (Hc tid task Hget)).
  assert (status task ≠ FAILED) by (intros Hs; by apply Hnf, (Hsf tid task)).
  destruct (status task); auto; done.
Qed.

Lemma reachable_dispatch_guard_witness :
  ∃ s tid rest task,
    run_driver default_settings ∅ 4 (dependent_chain_run id VNone VNone VNone) = Some (N_execute, s)
    ∧ next_tasks s = tid :: rest ∧ tid = "B"
    ∧ dict_get tid (tasks s) = Some task
    ∧ ∀ dep, dep ∈ dependencies task → dep ∈ completed_tasks s.
Proof.
  assert (Hrun : ∃ s, run_driver default_settings ∅ 4 (dependent_chain_run id VNone VNone VNone)
                      = Some (N_execute, s) ∧ next_tasks s = ["B"])
    by (eexists; split; [vm_compute; reflexivity | reflexivity]).
  destruct Hrun as (s & Hrun & Hnext). exists s.
  destruct (reachable_dispatch_guard default_settings s
              (run_driver_reachable _ _ _ _ _ Hrun))
    as (tid & rest & task & Hn & Hget & _ & _ & Hdeps & _).
  exists tid, rest, task. split; [exact Hrun|]. split; [exact Hn|].
  split; [congruence|]. split; [exact Hget | exact Hdeps].
Defined.

(** X5. Whenever the driver is about to run the Complete step,
    [next_tasks] is empty, every task that is neither completed nor failed
    has a dependency that is not completed, and every failed task has
    used up its retries. *)
Theorem reachable_completion_guard (settings : Settings) (state : WorkflowState) :
  reachable settings (N_complete, state) →
  next_tasks state = []
  ∧ (∀ tid task,
       dict_get tid (tasks state) = Some task →
       tid ∉ completed_tasks state → tid ∉ failed_tasks state →
       ∃ dep, dep ∈ dependencies task ∧ (dep ∉ completed_tasks state))
  ∧ (∀ tid task,
       tid ∈ failed_tasks state → dict_get tid (tasks state) = Some task →
       max_retries settings ≤ retry_count task).
Proof.
  intros Hreach.
  destruct (reachable_run_wf settings _ Hreach) as [_ _ _ _ _ _ Hcomplete].
  destruct (Hcomplete eq_refl) as (Hnil & Hnoready & Hexhausted). simpl in *.
  split; [done|]. split; [|done].
  intros tid task Hget Hnc Hnf.
  destruct (decide (Forall (λ dep, dep ∈ completed_tasks state) (dependencies task)))
    as [Hall|Hnot].
  - exfalso. apply (Hnoready tid). exists task. repeat split; try done.
    intros dep Hdep. by apply (proj1 (Forall_forall _ _) Hall).
  - apply not_Forall_Exists in Hnot; [|apply _].
    apply Exists_exists in Hnot as (dep & Hdep & Hn). eauto.
Qed.

Lemma reachable_completion_guard_witness :
  ∃ s, run_driver default_settings ∅ 4 stalled_run = Some (N_complete, s)
       ∧ next_tasks s = []
       ∧ ∀ tid task,
           dict_get tid (tasks s) = Some task →
           tid ∉ completed_tasks s → tid ∉ failed_tasks s →
           ∃ dep, dep ∈ dependencies task ∧ (dep ∉ completed_tasks s).
Proof.
  assert (Hrun : ∃ s, run_driver default_settings ∅ 4 stalled_run = Some (N_complete, s))
    by (eexists; vm_compute; reflexivity).
  destruct Hrun as (s & Hrun). exists s.
  destruct (reachable_completion_guard default_settings s
              (run_driver_reachable _ _ _ _ _ Hrun)) as (Hnil & Hblocked & _).
  split; [exact Hrun|]. split; [exact Hnil | exact Hblocked].
Defined.

(** ** What a run never undoes *)

Lemma node_appends settings n state u :
  yields (node_fn settings n state) u →
  (∃ more, execution_history (apply_update state u)
           = (execution_history state ++ more)%list)
  ∧ (∃ more, completed_tasks (apply_update state u)
             = (completed_tasks state ++ more)%list)
  ∧ workflow_id (context (apply_update state u)) = workflow_id (context state)
  ∧ goal (context (apply_update state u)) = goal (context state)
  ∧ ctx_started_at (context (apply_update state u)) = ctx_started_at (context state)
  ∧ metadata (context (apply_update state u)) = metadata (context state).
Proof.
  assert (Hsame : ∀ l : list HistoryEntry, ∃ more, l = (l ++ more)%list)
    by (intros l; exists []; by rewrite app_nil_r).
  assert (Hsame' : ∀ l : list string, ∃ more, l = (l ++ more)%list)
    by (intros l; exists []; by rewrite app_nil_r).
  intros Hy. destruct n; simpl in Hy.
  - apply plan_node_yields in Hy as [(planned & task_dict & Hb & ->)|(e & t & ->)];
      simpl; auto 10.
  - apply execute_node_yields in Hy
      as [[_ ->]|(tid & rest & task & ts & te & tl & res & _ & _ & [[_ ->]|(_ & _ & ->)])];
      simpl; eauto 10.
  - apply decide_node_yields in Hy as (l & -> & _). simpl. auto 10.
  - apply handle_failure_node_yields in Hy
      as [[_ ->]|[[t ->]|(tid & task & _ & _ & _ & [->| ->])]]; simpl; auto 10.
  - rewrite complete_node_eq in Hy. apply yields_Now_inv in Hy as [t Hy].
    apply yields_Ret_inv in Hy as <-. simpl. auto 10.
  - apply yields_Ret_inv in Hy as <-. simpl. auto 10.
Qed.

(** X6. Along any run of the driver the [execution_history] log and the
    [completed_tasks] list only grow at their end, and the context keeps
    its [workflow_id], [goal], [started_at] and [metadata]. *)
Theorem run_only_appends (settings : Settings) (c c' : Node * WorkflowState) :
  rtc (graph_step settings) c c' →
  (∃ more, execution_history c'.2 = (execution_history c.2 ++ more)%list)
  ∧ (∃ more, completed_tasks c'.2 = (completed_tasks c.2 ++ more)%list)
  ∧ workflow_id (context c'.2) = workflow_id (context c.2)
  ∧ goal (context c'.2) = goal (context c.2)
  ∧ ctx_started_at (context c'.2) = ctx_started_at (context c.2)
  ∧ metadata (context c'.2) = metadata (context c.2).
Proof.
  induction 1 as [c|c c1 c2 Hstep _ IH].
  - split; [exists []; by rewrite app_nil_r|]. split; [exists []; by rewrite app_nil_r|].
    done.
  - destruct Hstep as [n state u n' _ Hu _]. cbn [fst snd] in *.
    destruct (node_appends settings n state u Hu)
      as ([h1 Hh1] & [c1 Hc1] & Hw & Hg & Hs & Hm).
    destruct IH as ([h2 Hh2] & [c2' Hc2] & Hw' & Hg' & Hs' & Hm').
    split; [exists (h1 ++ h2)%list; by rewrite Hh2, Hh1, app_assoc|].
    split; [exists (c1 ++ c2')%list; by rewrite Hc2, Hc1, app_assoc|].
    repeat split; congruence.
Qed.

Lemma run_only_appends_witness :
  ∃ s s',
    run_driver default_settings ∅ 3 one_ok_one_failed = Some (N_decide, s)
    ∧ run_driver default_settings ∅ 5 one_ok_one_failed = Some (N_decide, s')
    ∧ length (execution_history s) = 1%nat ∧ length (execution_history s') = 2%nat
    ∧ ∃ more, execution_history s' = (execution_history s ++ more)%list.
Proof.
  eexists. eexists. split; [vm_compute; reflexivity|].
  split; [vm_compute; reflexivity|]. split; [reflexivity|]. split; [reflexivity|].
  match goal with
  | |- ∃ more, execution_history ?s' = (execution_history ?s ++ more)%list =>
      assert (Hrtc : rtc (graph_step default_settings) (N_decide, s) (N_decide, s'))
        by (apply (graph_exec_rtc default_settings 2 _ dispatch_fails _ []);
            vm_compute; reflexivity);
      exact (proj1 (run_only_appends default_settings _ _ Hrtc))
  end.
Defined.

Lemma node_keeps_descriptors settings n state u :
  n ≠ N_plan →
  yields (node_fn settings n state) u →
  dict_keys (tasks (apply_update state u)) = dict_keys (tasks state)
  ∧ ∀ tid task', dict_get tid (tasks (apply_update state u)) = Some task' →
      ∃ task, dict_get tid (tasks state) = Some task
              ∧ same_descriptor task task'
              ∧ retry_count task ≤ retry_count task'.
Proof.
  assert (Hrefl : ∀ tid task', dict_get tid (tasks state) = Some task' →
            ∃ task, dict_get tid (tasks state) = Some task
                    ∧ same_descriptor task task'
                    ∧ retry_count task ≤ retry_count task').
  { intros tid task' Hget. exists task'. split; [done|]. split; [|lia].
    repeat split. }
  assert (Hset : ∀ tid0 task0 task1,
            dict_get tid0 (tasks state) = Some task0 →
            same_descriptor task0 task1 → retry_count task0 ≤ retry_count task1 →
            dict_keys (dict_set tid0 task1 (tasks state)) = dict_keys (tasks state)
            ∧ ∀ tid task', dict_get tid (dict_set tid0 task1 (tasks state)) = Some task' →
                ∃ task, dict_get tid (tasks state) = Some task
                        ∧ same_descriptor task task'
                        ∧ retry_count task ≤ retry_count task').
  { intros tid0 task0 task1 Hget0 Hsame Hrc. split.
    - apply dict_keys_set_present, dict_get_keys. eauto.
    - intros tid task' Hget. dict_cases tid0 tid Hget; eauto. }
  intros Hn Hy. destruct n; simpl in Hy; [done| | | | |].
  - apply execute_node_yields in Hy
      as [[_ ->]|(tid & rest & task & ts & te & tl & res & _ & Hget & [[_ ->]|(_ & _ & ->)])];
      simpl; [done| |]; (eapply Hset; [exact Hget | repeat split | simpl; lia]).
  - apply decide_node_yields in Hy as (l & -> & _). simpl. done.
  - apply handle_failure_node_yields in Hy
      as [[_ ->]|[[t ->]|(tid & task & _ & Hget & _ & [->| ->])]]; simpl;
      [done|done| |]; (eapply Hset; [exact Hget | repeat split | simpl; lia]).
  - rewrite complete_node_eq in Hy. apply yields_Now_inv in Hy as [t Hy].
    apply yields_Ret_inv in Hy as <-. simpl. done.
  - apply yields_Ret_inv in Hy as <-. simpl. done.
Qed.

(** X7. Once the plan step has run, no step adds, removes or reorders a
    task; every task keeps its [task_id], [name], [description],
    [action_type], [action_config] and [dependencies], and its
    [retry_count] never decreases. *)
Theorem tasks_fixed_after_plan (settings : Settings) (c c' : Node * WorkflowState) :
  rtc (graph_step settings) c c' →
  c.1 ≠ N_plan →
  dict_keys (tasks c'.2) = dict_keys (tasks c.2)
  ∧ ∀ tid task', dict_get tid (tasks c'.2) = Some task' →
      ∃ task, dict_get tid (tasks c.2) = Some task
              ∧ same_descriptor task task'
              ∧ retry_count task ≤ retry_count task'.
Proof.
  induction 1 as [c|c c1 c2 Hstep _ IH]; intros Hn.
  - split; [done|]. intros tid task' Hget. exists task'. split; [done|].
    split; [repeat split | lia].
  - destruct Hstep as [n state u n' _ Hu Hsucc]. cbn [fst snd] in *.
    destruct (node_keeps_descriptors settings n state u Hn Hu) as [Hk1 Ht1].
    destruct IH as [Hk2 Ht2]; [by eapply successor_not_plan|].
    split; [congruence|]. intros tid task2 Hget2.
    destruct (Ht2 tid task2 Hget2) as (task1 & Hget1 & Hs1 & Hrc1).
    destruct (Ht1 tid task1 Hget1) as (task0 & Hget0 & Hs0 & Hrc0).
    exists task0. split; [done|]. split; [|lia].
    destruct Hs0 as (? & ? & ? & ? & ? & ?), Hs1 as (? & ? & ? & ? & ? & ?).
    repeat split; congruence.
Qed.

Lemma tasks_fixed_after_plan_witness :
  ∃ s s',
    run_driver default_settings ∅ 1 failed_then_retried = Some (N_decide, s)
    ∧ run_driver default_settings ∅ 5 failed_then_retried = Some (N_decide, s')
    ∧ dict_keys (tasks s') = dict_keys (tasks s)
    ∧ ∀ tid task', dict_get tid (tasks s') = Some task' →
        ∃ task, dict_get tid (tasks s) = Some task
                ∧ same_descriptor task task'
                ∧ retry_count task ≤ retry_count task'.
Proof.
  eexists. eexists. split; [vm_compute; reflexivity|].
  split; [vm_compute; reflexivity|].
  match goal with
  | |- dict_keys (tasks ?s') = dict_keys (tasks ?s) ∧ _ =>
      assert (Hrtc : rtc (graph_step default_settings) (N_decide, s) (N_decide, s'))
        by (apply (graph_exec_rtc default_settings 4 _
                     (dispatch_fails ++ [advice "retry"])%list _ []);
            vm_compute; reflexivity);
      exact (tasks_fixed_after_plan default_settings _ _ Hrtc ltac:(discriminate))
  end.
Defined.

(** ** Steps that cannot raise *)

Lemma never_raises_bind {A B : Type} (m : Eff A) (f : A → Eff B) :
  never_raises m → (∀ a, yields m a → never_raises (f a)) → never_raises (bind m f).
Proof.
  induction m as [a|e|k IH|kind c k IH|t s k IH|q k IH|g c k IH]; simpl; intros Hm Hf.
  - apply Hf. constructor.
  - done.
  - intros t. apply IH; [done|]. intros a Ha. apply Hf. by econstructor.
  - intros r. apply IH; [done|]. intros a Ha. apply Hf. by econstructor.
  - intros r. apply IH; [done|]. intros a Ha. apply Hf. by econstructor.
  - intros r. apply IH; [done|]. intros a Ha. apply Hf. by econstructor.
  - intros r. apply IH; [done|]. intros a Ha. apply Hf. by econstructor.
Qed.

Lemma execute_task_never_raises task state d :
  action_config task = VDict d → never_raises (execute_task task state).
Proof.
  intros Hd. unfold execute_task. rewrite Hd. cbn [as_dict].
  apply never_raises_bind.
  - destruct (truthy _); simpl; [intros [?|?]|]; done.
  - intros _ _. apply never_raises_try_catch. intros e. exact I.
Qed.

Lemma execute_task_not_dict task state :
  (∀ d, action_config task ≠ VDict d) →
  execute_task task state
  = Raise (AttributeError ("'" +:+ type_name (action_config task)
                           +:+ "' object has no attribute 'get'")).
Proof.
  intros Hd. unfold execute_task.
  destruct (action_config task) as [| | | | |d]; try reflexivity.
  by destruct (Hd d).
Qed.


Lemma execute_node_never_raises state tid rest task d :
  next_tasks state = tid :: rest →
  dict_get tid (tasks state) = Some task →
  action_config task = VDict d →
  never_raises (_execute_node state).
Proof.
  intros Hnext Hget Hd. unfold _execute_node. rewrite Hnext.
  unfold getitem. rewrite Hget, bind_unfold. simpl. intros t_start.
  apply never_raises_bind; [by apply (execute_task_never_raises _ _ d)|].
  intros res _. simpl. intros t_end. case_bool_decide; simpl; done.
Qed.






(** ** The Decide step, exactly *)

Lemma available_tasks_filter state ids :
  (∀ tid, tid ∈ ids → tid ∈ dict_keys (tasks state)) →
  available_tasks state ids = Ret (filter (λ tid, is_available state tid = true) ids).
Proof.
  induction ids as [|x rest IH]; intros Hkeys; [reflexivity|].
  assert (Hx : x ∈ dict_keys (tasks state)) by apply Hkeys, list_elem_of_here.
  apply dict_get_keys in Hx as [task Htask].
  assert (IH' := IH (λ tid Hin, Hkeys tid (list_elem_of_further _ _ _ Hin))).
  simpl.
  destruct (mem x (completed_tasks state) || mem x (failed_tasks state)) eqn:E.
  - rewrite IH'. rewrite filter_cons_False; [done|].
    unfold is_available. rewrite E. simpl. discriminate.
  - unfold getitem. rewrite Htask, bind_unfold. simpl. rewrite IH'. simpl.
    destruct (all_completed (dependencies task) (completed_tasks state)) eqn:Ed.
    + rewrite filter_cons_True; [done|]. unfold is_available. by rewrite E, Htask.
    + rewrite filter_cons_False; [done|]. unfold is_available. rewrite E, Htask. simpl.
      rewrite Ed. discriminate.
Qed.

(** X9. The Decide step returns the ids that are neither completed nor
    failed and whose dependencies are all completed, in the insertion order
    of [tasks]; the second pass it delegates to the planner removes
    nothing from that list. *)
Theorem decide_in_insertion_order (state : WorkflowState) :
  let ready_ids :=
    filter (λ tid, is_available state tid = true) (dict_keys (tasks state)) in
  _decide_node state = Ret (next_tasks_update ready_ids)
  ∧ decide_next_tasks state ready_ids = ready_ids
  ∧ sublist ready_ids (dict_keys (tasks state)).
Proof.
  intros ready_ids.
  assert (Hsecond : decide_next_tasks state ready_ids = ready_ids).
  { assert (Hfilter :
      filter (λ task_id,
                all_completed (match dict_get task_id (tasks state) with
                               | Some task => dependencies task
                               | None => []
                               end) (completed_tasks state) = true
                ∧ mem task_id (completed_tasks state) = false
                ∧ mem task_id (failed_tasks state) = false) ready_ids = ready_ids).
    { unfold ready_ids. rewrite list_filter_filter. apply list_filter_iff.
      intros tid. unfold is_available.
      destruct (mem tid (completed_tasks state)), (mem tid (failed_tasks state));
        simpl; split; try tauto; try (intros [[_ [? ?]] _]; discriminate);
        try (intros [_ ?]; discriminate); try discriminate. }
    unfold decide_next_tasks. destruct ready_ids; [done | exact Hfilter]. }
  split; [|split; [exact Hsecond | apply sublist_filter]].
  unfold _decide_node. rewrite bind_unfold.
  rewrite (available_tasks_filter state (dict_keys (tasks state))) by done.
  simpl. fold ready_ids. rewrite <- Hsecond at 2. unfold decide_next_tasks at 2.
  destruct ready_ids; reflexivity.
Qed.

(** ** The plan step *)

(** X10. When the planner raises, the run has three steps (plan, decide,
    complete) and ends with
    status ["failed"], no task, and one entry in [errors] whose step is
    ["plan"] and whose text is the exception's. *)
Theorem planner_failure_run (settings : Settings) (wid g : string) (t0 t1 t2 : Time)
    (config : gmap string Value) (e : Exn) :
  ∃ s, fst <$> graph_exec settings 3 (N_plan, initial_state wid g t0 config)
                 [R_plan (inr e); R_now t1; R_now t2] = Some (END, s)
       ∧ tasks s = []
       ∧ errors s = [{| e_step := "plan"; e_error := str_exn e; e_timestamp := t1 |}]
       ∧ ctx_status (context s) = "failed"
       ∧ ctx_completed_at (context s) = Some t2
       ∧ execution_history s = [].
Proof.
  eexists. split; [vm_compute; reflexivity|]. repeat split; reflexivity.
Qed.

Lemma make_task_cases td :
  (complete_descriptor td ∧ ∃ task, make_task td = Ret task)
  ∨ (¬ complete_descriptor td ∧ ∃ key, make_task td = Raise (KeyError key)).
Proof.
  unfold make_task, complete_descriptor.
  destruct (td_name td) as [n|];
    [|right; split; [intros ([x Hx] & _); discriminate Hx | simpl; eauto]].
  destruct (td_description td) as [d|];
    [|right; split; [intros (_ & [x Hx] & _); discriminate Hx | simpl; eauto]].
  destruct (td_action_type td) as [a|];
    [|right; split; [intros (_ & _ & [x Hx] & _); discriminate Hx | simpl; eauto]].
  destruct (td_action_config td) as [c|];
    [|right; split; [intros (_ & _ & _ & [x Hx]); discriminate Hx | simpl; eauto]].
  left. split; [repeat split; eauto | simpl; eauto].
Qed.

Lemma build_task_dict_malformed planned :
  ∀ acc td,
    td ∈ planned → ¬ complete_descriptor td →
    ∃ key, build_task_dict planned acc = Raise (KeyError key).
Proof.
  induction planned as [|td0 rest IH]; intros acc td Hin Hbad; [inversion Hin|].
  simpl. rewrite bind_unfold.
  destruct (make_task_cases td0) as [[Hok [task ->]]|[_ [key ->]]]; simpl; [|eauto].
  apply elem_of_cons in Hin as [->|Hin]; [done|]. by eapply IH.
Qed.

(** X11. If one descriptor of the plan lacks [name], [description],
    [action_type] or [action_config], the plan step stores no task at all:
    it returns the failure update, with a [KeyError] in [errors] and the
    status ["failed"]. *)
Theorem plan_aborts_on_incomplete_descriptor (state : WorkflowState)
    (planned : list TaskData) (td : TaskData) (t : Time) :
  td ∈ planned →
  ¬ complete_descriptor td →
  ∃ key u,
    run_script (_plan_node state) [R_plan (inl planned); R_now t] = Some (inr u, [])
    ∧ u = plan_failed_update state (KeyError key) t
    ∧ tasks (apply_update state u) = tasks state
    ∧ next_tasks (apply_update state u) = next_tasks state
    ∧ ctx_status (context (apply_update state u)) = "failed".
Proof.
  intros Hin Hbad.
  destruct (build_task_dict_malformed planned [] td Hin Hbad) as [key Hraise].
  exists key, (plan_failed_update state (KeyError key) t).
  split; [|done]. unfold _plan_node. simpl. rewrite !bind_unfold, Hraise. reflexivity.
Qed.

Lemma plan_aborts_on_incomplete_descriptor_witness :
  let nameless := {| td_task_id := "B"; td_name := None; td_description := Some "";
                     td_action_type := Some "wait"; td_action_config := Some (VDict []);
                     td_dependencies := [] |} in
  let state := create_initial_state "w" "g" 0%nat in
  ∃ key u,
    run_script (_plan_node state) [R_plan (inl [descriptor "A" []; nameless]); R_now 1%nat]
      = Some (inr u, [])
    ∧ u = plan_failed_update state (KeyError key) 1%nat
    ∧ tasks (apply_update state u) = [].
Proof.
  intros nameless state.
  destruct (plan_aborts_on_incomplete_descriptor state [descriptor "A" []; nameless]
              nameless 1%nat)
    as (key & u & Hrun & Hu & Htasks & _).
  - apply list_elem_of_further, list_elem_of_here.
  - intros ([x Hx] & _). discriminate Hx.
  - exists key, u. split; [exact Hrun|]. split; [exact Hu | exact Htasks].
Defined.

Lemma build_task_dict_Ret planned :
  ∀ acc, Forall complete_descriptor planned →
         ∃ task_dict, build_task_dict planned acc = Ret task_dict.
Proof.
  induction planned as [|td rest IH]; intros acc Hall; simpl; [eauto|].
  apply Forall_cons in Hall as [Hok Hrest]. rewrite bind_unfold.
  destruct (make_task_cases td) as [[_ [task ->]]|[Hbad _]]; [|done]. simpl.
  by apply IH.
Qed.

Lemma build_task_dict_other planned :
  ∀ acc task_dict tid,
    build_task_dict planned acc = Ret task_dict →
    (∀ td, td ∈ planned → td_task_id td ≠ tid) →
    dict_get tid task_dict = dict_get tid acc.
Proof.
  induction planned as [|td rest IH]; simpl; intros acc task_dict tid H Hne.
  - by injection H as <-.
  - rewrite bind_unfold in H.
    destruct (make_task_cases td) as [[_ [task Hmk]]|[_ [key Hmk]]];
      rewrite Hmk in H; simpl in H; [|discriminate H].
    rewrite (IH _ _ tid H) by (intros td' Hin; apply Hne; by apply list_elem_of_further).
    apply dict_get_set_ne.
    assert (Hy : yields (make_task td) task) by (rewrite Hmk; constructor).
    apply make_task_yields in Hy as [-> _]. apply Hne, list_elem_of_here.
Qed.

Lemma build_task_dict_last pre :
  ∀ acc td post task task_dict,
    build_task_dict (pre ++ td :: post) acc = Ret task_dict →
    make_task td = Ret task →
    (∀ td', td' ∈ post → td_task_id td' ≠ td_task_id td) →
    dict_get (td_task_id td) task_dict = Some task.
Proof.
  induction pre as [|x pre IH]; simpl; intros acc td post task task_dict H Hmk Hpost.
  - rewrite bind_unfold, Hmk in H. simpl in H.
    rewrite (build_task_dict_other post _ _ (td_task_id td) H Hpost).
    assert (Hy : yields (make_task td) task) by (rewrite Hmk; constructor).
    apply make_task_yields in Hy as [-> _]. apply dict_get_set_eq.
  - rewrite bind_unfold in H.
    destruct (make_task_cases x) as [[_ [tx Hx]]|[_ [key Hx]]];
      rewrite Hx in H; simpl in H; [|discriminate H].
    by eapply IH.
Qed.

(** X12. When every descriptor of the plan is complete, the plan step
    returns, without raising, a [tasks] map whose keys are exactly the
    planned ids, each once; every task is [PENDING] with [retry_count] 0
    and no error; of several descriptors with the same id the last one is
    the task stored; and [next_tasks] lists the ids of the descriptors
    without dependencies, in the planner's order. *)
Theorem plan_creates_pending_tasks (state : WorkflowState) (planned : list TaskData) :
  Forall complete_descriptor planned →
  ∃ task_dict,
    run_script (_plan_node state) [R_plan (inl planned)]
      = Some (inr (plan_update task_dict planned), [])
    ∧ NoDup (dict_keys task_dict)
    ∧ (∀ tid, tid ∈ dict_keys task_dict ↔ ∃ td, td ∈ planned ∧ td_task_id td = tid)
    ∧ (∀ tid task, dict_get tid task_dict = Some task →
         status task = PENDING ∧ retry_count task = 0 ∧ error task = None)
    ∧ (∀ pre td post task,
         planned = (pre ++ td :: post)%list → make_task td = Ret task →
         (∀ td', td' ∈ post → td_task_id td' ≠ td_task_id td) →
         dict_get (td_task_id td) task_dict = Some task)
    ∧ next_tasks (apply_update state (plan_update task_dict planned))
      = td_task_id <$> filter (λ td, td_dependencies td = []) planned.
Proof.
  intros Hall. destruct (build_task_dict_Ret planned [] Hall) as [task_dict Hbuild].
  exists task_dict.
  assert (Hy : yields (build_task_dict planned []) task_dict)
    by (rewrite Hbuild; constructor).
  destruct (build_task_dict_yields planned [] task_dict Hy)
    as (Hnd & Hpending & _ & Hplanned);
    [apply NoDup_nil_2 | intros ? ? H; discriminate H|].
  split; [unfold _plan_node; simpl; rewrite !bind_unfold, Hbuild; reflexivity|].
  split; [exact Hnd|]. split; [|split; [|split; [|reflexivity]]].
  - intros tid. split; [|intros (td & Hin & <-); by apply Hplanned].
    intros Hkey. apply dict_get_keys in Hkey as [task Hget].
    destruct (decide (Exists (λ td, td_task_id td = tid) planned)) as [Hex|Hno].
    + apply Exists_exists in Hex. exact Hex.
    + exfalso. rewrite (build_task_dict_other planned [] task_dict tid Hbuild) in Hget.
      * discriminate Hget.
      * intros td Hin Heq. apply Hno, Exists_exists. eauto.
  - intros tid task Hget. destruct (Hpending tid task Hget) as [Hst Herr].
    destruct (build_task_dict_fresh planned [] task_dict Hy
                ltac:(intros ? ? H; discriminate H) tid task Hget) as [_ Hrc].
    done.
  - intros pre td post task -> Hmk Hpost.
    by eapply build_task_dict_last.
Qed.

Lemma plan_creates_pending_tasks_witness :
  let planned := [descriptor "A" []; descriptor "B" ["A"]; descriptor "A" ["B"]] in
  let state := create_initial_state "w" "g" 0%nat in
  ∃ task_dict task,
    run_script (_plan_node state) [R_plan (inl planned)]
      = Some (inr (plan_update task_dict planned), [])
    ∧ dict_get "A" task_dict = Some task
    ∧ dependencies task = ["B"].
Proof.
  intros planned state.
  destruct (plan_creates_pending_tasks state planned) as (task_dict & Hrun & _ & _ & _ & Hlast & _).
  - repeat constructor; eexists; reflexivity.
  - exists task_dict. eexists. split; [exact Hrun|]. split.
    + apply (Hlast [descriptor "A" []; descriptor "B" ["A"]] (descriptor "A" ["B"]) []);
        [reflexivity | reflexivity | intros td' H; inversion H].
    + reflexivity.
Defined.

(** ** Dispatching a task *)

(** X13. For each of the five registered action types, [execute] hands
    the implementation's data back as a ["success"] result, and turns an
    exception of the implementation into an ["error"] result that carries
    the exception's text and no data; it never raises. *)
Theorem execute_surfaces_outcome (action_type : string) (config : gmap string Value) :
  action_type ∈ ["api_call"; "db_query"; "file_operation"; "transform_data"; "wait"] →
  (∀ data,
     run_script (execute action_type config) [R_action (inl data)]
     = Some (inr {| ar_status := "success"; ar_data := data; ar_error := None |}, []))
  ∧ (∀ e,
       run_script (execute action_type config) [R_action (inr e)]
       = Some (inr {| ar_status := "error"; ar_data := VNone;
                      ar_error := Some (str_exn e) |}, []))
  ∧ never_raises (execute action_type config).
Proof.
  intros Hin. split; [|split; [|apply execute_never_raises]].
  - intros data.
    repeat (apply elem_of_cons in Hin as [->|Hin]; [reflexivity|]). inversion Hin.
  - intros e.
    repeat (apply elem_of_cons in Hin as [->|Hin]; [reflexivity|]). inversion Hin.
Qed.

Lemma execute_surfaces_outcome_witness :
  run_script (execute "file_operation" ∅) [R_action (inr (OtherError "File not found: x"))]
  = Some (inr {| ar_status := "error"; ar_data := VNone;
                 ar_error := Some "File not found: x" |}, []).
Proof.
  apply (execute_surfaces_outcome "file_operation" ∅).
  apply list_elem_of_further, list_elem_of_further, list_elem_of_here.
Defined.

Lemma execute_yields_data action_type config r :
  yields (execute action_type config) r →
  ar_status r = "error" → ar_data r = VNone.
Proof.
  unfold execute. intros H Hs. apply yields_try_catch_inv in H as [H|[e H]].
  - repeat case_bool_decide;
      try (apply perform_yields in H as [Hok _]; rewrite Hok in Hs; discriminate Hs).
    by apply yields_Raise_inv in H.
  - by apply yields_Ret_inv in H as <-.
Qed.

(** X14. On a task whose [action_config] is a dictionary the executor
    agent never raises: whatever the action does and whether or not it
    first asks for reasoning, [execute_task] returns either a ["success"]
    result without error or a ["failed"] result with an error text and no
    data.  On a task whose [action_config] is anything else it raises
    [AttributeError] at once, asking nothing of the world. *)
Theorem execute_task_total (task : Task) (state : WorkflowState) :
  (∀ d, action_config task = VDict d →
     never_raises (execute_task task state)
     ∧ ∀ res, yields (execute_task task state) res →
         (tr_status res = "success" ∧ tr_error res = None)
         ∨ (tr_status res = "failed" ∧ tr_data res = VNone
            ∧ ∃ msg, tr_error res = Some msg))
  ∧ ((∀ d, action_config task ≠ VDict d) →
     execute_task task state
     = Raise (AttributeError ("'" +:+ type_name (action_config task)
                              +:+ "' object has no attribute 'get'"))).
Proof.
  split; [|apply execute_task_not_dict].
  intros d Hd. split; [by apply (execute_task_never_raises _ _ d)|].
  unfold execute_task. rewrite Hd. cbn [as_dict]. intros res H.
  apply yields_bind_inv in H as (_ & _ & H).
  apply yields_try_catch_inv in H as [H|[e H]].
  - apply yields_bind_inv in H as (r & Hr & H).
    case_bool_decide.
    + apply yields_Ret_inv in H as <-. right. simpl. eauto.
    + apply yields_Ret_inv in H as <-. left. simpl. done.
  - apply yields_Ret_inv in H as <-. right. simpl. eauto.
Qed.

Lemma execute_unknown_eq action_type config :
  action_type ∉ ["api_call"; "db_query"; "file_operation"; "transform_data"; "wait"] →
  execute action_type config =
    Ret {| ar_status := "error"; ar_data := VNone;
           ar_error := Some ("Unknown action type: " +:+ action_type) |}.
Proof.
  intros Hnot. unfold execute.
  rewrite !bool_decide_eq_false_2; [reflexivity|..];
    intros ->; apply Hnot; repeat constructor.
Qed.

(** X15. When the task to dispatch has an [action_config] that is a
    dictionary and an [action_type] that is none of the five registered
    ones, the Execute step cannot raise and, whatever the world answers,
    marks the task [FAILED] with the error ["Unknown action type: "]
    followed by the tag, and adds its id to [failed_tasks]. *)
Theorem execute_node_unknown_action (state : WorkflowState) (tid : string)
    (rest : list string) (task : Task) (d : list (string * Value)) :
  next_tasks state = tid :: rest →
  dict_get tid (tasks state) = Some task →
  action_config task = VDict d →
  action_type task ∉ ["api_call"; "db_query"; "file_operation"; "transform_data"; "wait"] →
  never_raises (_execute_node state)
  ∧ ∀ u, yields (_execute_node state) u →
      ∃ task',
        dict_get tid (tasks (apply_update state u)) = Some task'
        ∧ status task' = FAILED
        ∧ error task' = Some ("Unknown action type: " +:+ action_type task)
        ∧ failed_tasks (apply_update state u) = (failed_tasks state ++ [tid])%list
        ∧ completed_tasks (apply_update state u) = completed_tasks state.
Proof.
  intros Hnext Hget Hd Hunknown. split.
  { by apply (execute_node_never_raises state tid rest task d). }
  intros u Hy. unfold _execute_node in Hy. rewrite Hnext in Hy.
  inv_bind Hy task0 Htask. apply yields_getitem in Htask.
  assert (task0 = task) as -> by congruence.
  inv_bind Hy t_start Hs. inv_bind Hy res Hres. inv_bind Hy t_end He.
  assert (Hres' : res = {| tr_status := "failed";
                           tr_error := Some ("Unknown action type: " +:+ action_type task);
                           tr_data := VNone |}).
  { unfold execute_task in Hres.
    cbn [action_type action_config set_started_at set_status] in Hres.
    rewrite Hd in Hres. cbn [as_dict] in Hres. cbv zeta in Hres.
    rewrite bind_unfold in Hres.
    apply yields_bind_inv in Hres as (reasoning & _ & Hres).
    cbn [action_type action_config set_started_at set_status] in Hres.
    rewrite (execute_unknown_eq _ _ Hunknown) in Hres. simpl in Hres.
    by apply yields_Ret_inv in Hres as <-. }
  subst res. simpl in Hy. apply yields_Now_inv in Hy as [t_log Hy].
  apply yields_Ret_inv in Hy as <-.
  eexists. simpl. split; [apply dict_get_set_eq|]. done.
Qed.

Lemma execute_node_unknown_action_witness :
  let task := {| task_id := "A"; name := "A"; description := ""; action_type := "nonexistent";
                 action_config := VDict []; status := PENDING; dependencies := [];
                 retry_count := 0; error := None; result := VNone;
                 started_at := None; completed_at := None |} in
  let state := state_with [("A", task)] ["A"] [] [] in
  never_raises (_execute_node state)
  ∧ ∀ u, yields (_execute_node state) u →
      ∃ task',
        dict_get "A" (tasks (apply_update state u)) = Some task'
        ∧ status task' = FAILED
        ∧ error task' = Some "Unknown action type: nonexistent".
Proof.
  intros task state.
  destruct (execute_node_unknown_action state "A" [] task [] eq_refl eq_refl eq_refl)
    as [Hnr H].
  - intros Hin. repeat (apply elem_of_cons in Hin as [Hin|Hin]; [discriminate Hin|]).
    inversion Hin.
  - split; [exact Hnr|]. intros u Hy.
    destruct (H u Hy) as (task' & Hget & Hst & Herr & _). eauto.
Defined.

(** X16. When the Execute step dispatches the first id of [next_tasks]
    and that task ends [COMPLETED], the step records the result in the
    task and under the key ["task_<id>_result"] of [memory], clears the
    task's error, appends the id to [completed_tasks] and a ["success"]
    entry to [execution_history], and leaves the other [memory] keys, the
    other tasks, [failed_tasks], [context] and [errors] as they were. *)
Theorem execute_success_effects (state : WorkflowState) (u : Update)
    (tid : string) (rest : list string) (task' : Task) :
  yields (_execute_node state) u →
  next_tasks state = tid :: rest →
  dict_get tid (tasks (apply_update state u)) = Some task' →
  status task' = COMPLETED →
  let state' := apply_update state u in
  let key := "task_" +:+ tid +:+ "_result" in
  memory state' !! key = Some (result task')
  ∧ (∀ other, other ≠ key → memory state' !! other = memory state !! other)
  ∧ error task' = None
  ∧ completed_tasks state' = (completed_tasks state ++ [tid])%list
  ∧ failed_tasks state' = failed_tasks state
  ∧ context state' = context state
  ∧ errors state' = errors state
  ∧ (∀ other, other ≠ tid → dict_get other (tasks state') = dict_get other (tasks state))
  ∧ next_tasks state' = remove_id tid (next_tasks state)
  ∧ ∃ entry, execution_history state' = (execution_history state ++ [entry])%list
             ∧ h_task_id entry = tid ∧ h_status entry = "success"
             ∧ h_result entry = Some (result task').
Proof.
  intros Hy Hnext Hget Hst.
  apply execute_node_yields in Hy
    as [[Hnil _]|(tid0 & rest0 & task & ts & te & tl & res & Hnext0 & Hget0 & Hcase)].
  { congruence. }
  assert (tid0 = tid) as -> by congruence.
  destruct Hcase as [[_ ->]|(_ & _ & ->)]; simpl in *.
  - rewrite dict_get_set_eq in Hget. injection Hget as <-. simpl.
    split; [apply lookup_insert_eq|]. split; [intros other Hne; by apply lookup_insert_ne|].
    repeat split; try done.
    + intros other Hne. by apply dict_get_set_ne.
    + eexists. split; [reflexivity|]. done.
  - rewrite dict_get_set_eq in Hget. injection Hget as <-. discriminate Hst.
Qed.

Lemma execute_success_effects_witness :
  let state := state_with [("A", task_in "A" PENDING [] 0 None)] ["A"] [] [] in
  let res := {| tr_status := "success"; tr_data := VInt 7; tr_error := None |} in
  let task' := set_error None (set_result (VInt 7)
                 (set_status COMPLETED
                    (dispatched (task_in "A" PENDING [] 0 None) 1%nat 2%nat))) in
  let u := success_update state "A" task' res 3%nat in
  run_script (_execute_node state)
    [R_now 1%nat; R_action (inl (VInt 7)); R_now 2%nat; R_now 3%nat] = Some (inr u, [])
  ∧ memory (apply_update state u) !! "task_A_result" = Some (VInt 7)
  ∧ completed_tasks (apply_update state u) = ["A"].
Proof.
  intros state res task' u.
  assert (Hrun : run_script (_execute_node state)
                   [R_now 1%nat; R_action (inl (VInt 7)); R_now 2%nat; R_now 3%nat]
                 = Some (inr u, []))
    by (vm_compute; reflexivity).
  split; [exact Hrun|].
  pose proof (execute_success_effects state u "A" [] task'
                (run_script_yields _ _ _ _ Hrun) eq_refl eq_refl eq_refl)
    as (Hm & _ & _ & Hc & _).
  split; [exact Hm | exact Hc].
Defined.

(** ** The retry policy and the failure-handling step *)

(** X17. With an integer budget [m] in [metadata] (3 when unset),
    [handle_failure] answers [fail_workflow] itself once
    [retry_count >= m]; below [m] it never raises, hands back whatever
    decision the advisor gives, unchecked, and answers [retry] when the
    advisor fails. *)
Theorem handle_failure_policy (task : Task) (err : string) (state : WorkflowState)
    (rc m : Z) :
  as_int (default (VInt 3) (metadata (context state) !! "max_retries")) = Some m →
  (m ≤ rc →
   handle_failure task err state rc
   = Ret (decision "fail_workflow"
            ("Max retries ("
             +:+ py_str (default (VInt 3) (metadata (context state) !! "max_retries"))
             +:+ ") exceeded")))
  ∧ (rc < m →
     never_raises (handle_failure task err state rc)
     ∧ (∀ d, run_script (handle_failure task err state rc) [R_advice (inl d)]
             = Some (inr d, []))
     ∧ (∀ e, run_script (handle_failure task err state rc) [R_advice (inr e)]
             = Some (inr (decision "retry" "Default decision"), []))).
Proof.
  intros Hm. unfold handle_failure. rewrite Hm. split.
  - intros Hle. by replace (m <=? rc) with true by (symmetry; lia).
  - intros Hlt. replace (m <=? rc) with false by (symmetry; lia).
    split; [intros [d|e]; exact I|]. split; [done|].
    intros e. simpl. by replace (rc <? m) with true by (symmetry; lia).
Qed.

Lemma handle_failure_policy_witness :
  let state := state_with [] [] [] [] in
  let task := task_in "A" FAILED [] 3 (Some "boom") in
  handle_failure task "boom" state 3
  = Ret (decision "fail_workflow" "Max retries (3) exceeded").
Proof.
  intros state task.
  exact (proj1 (handle_failure_policy task "boom" state 3 3 eq_refl) ltac:(lia)).
Defined.

Ltac consulted_here :=
  split; [reflexivity|]; split; [discriminate|]; split; [reflexivity|];
  split; [reflexivity|simpl; lia].

Ltac consult Hc :=
  let Hfirst := fresh "Hfirst" in
  let Hne := fresh "Hne" in
  let Hget := fresh "Hget" in
  let Hm := fresh "Hm" in
  let Hrc := fresh "Hrc" in
  destruct Hc as (Hfirst & Hne & Hget & Hm & Hrc);
  unfold _handle_failure_node;
  destruct (failed_tasks _) as [|? ?] eqn:?; [discriminate Hfirst|];
  rewrite bind_unfold, Hfirst; simpl;
  rewrite bool_decide_eq_false_2 by done;
  unfold getitem; rewrite Hget; simpl;
  unfold handle_failure; rewrite Hm;
  match goal with
  | |- context [?a <=? ?b] => replace (a <=? b) with false by (symmetry; lia)
  end;
  simpl.

(** X18. When the advisor fails while the task still has budget, the
    failure-handling step retries the task: the result is the update of a
    [retry] decision. *)
Theorem advisor_unavailable_retries (settings : Settings) (state : WorkflowState)
    (tid : string) (task : Task) (m : Z) (e : Exn) :
  advisor_consulted settings state tid task m →
  run_script (_handle_failure_node settings state) [R_advice (inr e)]
  = Some (inr (retry_update state tid
                 (set_error None (set_status RETRYING
                    (set_retry_count (retry_count task + 1) task)))), []).
Proof.
  intros Hc. consult Hc.
  by replace (retry_count task <? m) with true by (symmetry; lia).
Qed.

Lemma advisor_unavailable_retries_witness :
  let task := task_in "A" FAILED [] 0 (Some "boom") in
  let state := state_with [("A", task)] [] [] ["A"] in
  run_script (_handle_failure_node default_settings state)
    [R_advice (inr (OtherError "timeout"))]
  = Some (inr (retry_update state "A" (task_in "A" RETRYING [] 1 None)), []).
Proof.
  intros task state.
  apply (advisor_unavailable_retries default_settings state "A" task 3).
  consulted_here.
Defined.

(** X19. Any decision whose action is neither ["retry"] nor ["skip"]
    (["modify"] included) is handled as [fail_workflow]: the step sets
    the context status to ["failed"] and changes no task and no list. *)
Theorem other_decision_fails_workflow (settings : Settings) (state : WorkflowState)
    (tid : string) (task : Task) (m : Z) (d a : Value) (t : Time) :
  advisor_consulted settings state tid task m →
  py_getitem d "action" = Ret a →
  is_str a "retry" = false → is_str a "skip" = false →
  run_script (_handle_failure_node settings state) [R_advice (inl d); R_now t]
  = Some (inr (fail_workflow_update state t), [])
  ∧ tasks (apply_update state (fail_workflow_update state t)) = tasks state
  ∧ failed_tasks (apply_update state (fail_workflow_update state t)) = failed_tasks state
  ∧ ctx_status (context (apply_update state (fail_workflow_update state t))) = "failed".
Proof.
  intros Hc Ha Hr Hs. split; [|done]. consult Hc. rewrite Ha. simpl. by rewrite Hr, Hs.
Qed.

Lemma other_decision_fails_workflow_witness :
  let task := task_in "A" FAILED [] 0 (Some "boom") in
  let state := state_with [("A", task)] [] [] ["A"] in
  run_script (_handle_failure_node default_settings state) [advice "modify"; R_now 5%nat]
  = Some (inr (fail_workflow_update state 5%nat), []).
Proof.
  intros task state.
  refine (proj1 (other_decision_fails_workflow default_settings state "A" task 3
                   (decision "modify" "advised") (VStr "modify") 5%nat _ eq_refl
                   eq_refl eq_refl)).
  consulted_here.
Defined.

(** X20. A decision from which [decision["action"]] cannot be read (an
    object without that key, or a value that is no object) makes the
    failure-handling step raise that exception. *)
Theorem unreadable_decision_raises (settings : Settings) (state : WorkflowState)
    (tid : string) (task : Task) (m : Z) (d : Value) (e : Exn) :
  advisor_consulted settings state tid task m →
  py_getitem d "action" = Raise e →
  run_script (_handle_failure_node settings state) [R_advice (inl d)] = Some (inl e, []).
Proof.
  intros Hc Ha. consult Hc. by rewrite Ha.
Qed.

Lemma unreadable_decision_raises_witness :
  let task := task_in "A" FAILED [] 0 (Some "boom") in
  let state := state_with [("A", task)] [] [] ["A"] in
  run_script (_handle_failure_node default_settings state)
    [R_advice (inl (VDict [("reason", VStr "transient")]))]
  = Some (inl (KeyError "action"), []).
Proof.
  intros task state.
  apply (unreadable_decision_raises default_settings state "A" task 3); [|reflexivity].
  consulted_here.
Defined.

(** X21. When the failure-handling step consults the advisor about a
    task and the answer's action is ["skip"], the step returns an update
    that sets the task's status to [SKIPPED] and removes its id, and
    nothing else, from [failed_tasks]; the task keeps its [retry_count]
    and its [error], and [next_tasks], [completed_tasks], the context and
    the other tasks are left as they were. *)
Theorem handle_failure_skip (settings : Settings) (state : WorkflowState)
    (tid : string) (task : Task) (m : Z) (d : Value) :
  advisor_consulted settings state tid task m →
  py_getitem d "action" = Ret (VStr "skip") →
  ∃ u task',
    run_script (_handle_failure_node settings state) [R_advice (inl d)]
    = Some (inr u, [])
    ∧ dict_get tid (tasks (apply_update state u)) = Some task'
    ∧ status task' = SKIPPED
    ∧ retry_count task' = retry_count task
    ∧ error task' = error task
    ∧ (tid ∉ failed_tasks (apply_update state u))
    ∧ (∀ x, x ≠ tid →
         (x ∈ failed_tasks (apply_update state u) ↔ x ∈ failed_tasks state))
    ∧ (∀ pre post, failed_tasks state = (pre ++ tid :: post)%list →
         tid ∉ pre → tid ∉ post →
         failed_tasks (apply_update state u) = (pre ++ post)%list)
    ∧ next_tasks (apply_update state u) = next_tasks state
    ∧ completed_tasks (apply_update state u) = completed_tasks state
    ∧ context (apply_update state u) = context state
    ∧ (∀ other, other ≠ tid →
         dict_get other (tasks (apply_update state u)) = dict_get other (tasks state)).
Proof.
  intros Hc Haction.
  exists (skip_update state tid (set_status SKIPPED task)), (set_status SKIPPED task).
  split.
  { consult Hc. rewrite Haction. reflexivity. }
  cbn [apply_update skip_update u_tasks u_failed_tasks u_next_tasks u_context
       u_completed_tasks default tasks failed_tasks next_tasks completed_tasks context].
  split; [apply dict_get_set_eq|].
  split; [reflexivity|]. split; [reflexivity|]. split; [reflexivity|].
  split; [intros Hin; by apply remove_id_elem in Hin as [? _]|].
  split.
  { intros x Hx. split; intros Hin.
    - by apply remove_id_elem in Hin as [_ ?].
    - by apply remove_id_elem. }
  split; [intros pre post -> Hpre Hpost; by apply remove_id_split|].
  split; [reflexivity|]. split; [reflexivity|]. split; [reflexivity|].
  intros other Ho. by apply dict_get_set_ne.
Qed.

Lemma handle_failure_skip_witness :
  let task := task_in "A" FAILED [] 2 (Some "boom") in
  let state := state_with [("A", task)] [] [] ["A"] in
  ∃ u task',
    run_script (_handle_failure_node default_settings state) [advice "skip"]
    = Some (inr u, [])
    ∧ dict_get "A" (tasks (apply_update state u)) = Some task'
    ∧ status task' = SKIPPED ∧ retry_count task' = 2 ∧ error task' = Some "boom"
    ∧ failed_tasks (apply_update state u) = [].
Proof.
  intros task state.
  destruct (handle_failure_skip default_settings state "A" task 3
              (decision "skip" "advised"))
    as (u & task' & Hrun & Hget & Hst & Hrc & Herr & _ & _ & Hf & _);
    [consulted_here | reflexivity |].
  exists u, task'. split; [exact Hrun|]. split; [exact Hget|]. split; [exact Hst|].
  split; [exact Hrc|]. split; [exact Herr|].
  apply (Hf [] []); [reflexivity | |]; intros Hin; by apply not_elem_of_nil in Hin.
Defined.

(** X22. If the first failed task with retry budget has the empty
    string as id, the failure-handling step takes it for no task at all:
    it sets the context status to ["failed"] without consulting the
    advisor. *)
Theorem empty_id_fails_workflow (settings : Settings) (state : WorkflowState) :
  first_retryable settings state (failed_tasks state) = Ret (Some "") →
  _handle_failure_node settings state = Now (λ t, Ret (fail_workflow_update state t))
  ∧ never_advises (_handle_failure_node settings state).
Proof.
  intros Hfirst.
  assert (Heq : _handle_failure_node settings state
                = Now (λ t, Ret (fail_workflow_update state t))).
  { unfold _handle_failure_node.
    destruct (failed_tasks state); [discriminate Hfirst|].
    by rewrite bind_unfold, Hfirst. }
  split; [exact Heq|]. rewrite Heq. intros t. exact I.
Qed.

Lemma empty_id_fails_workflow_witness :
  let state := state_with [("", task_in "" FAILED [] 0 (Some "boom"))] [] [] [""] in
  _handle_failure_node default_settings state
  = Now (λ t, Ret (fail_workflow_update state t)).
Proof.
  intros state. exact (proj1 (empty_id_fails_workflow default_settings state eq_refl)).
Defined.

(** X23. The budget read from [metadata] is a second ceiling: when the
    first failed task with [retry_count < settings.max_retries] has
    reached the [max_retries] of [metadata], the failure-handling step
    sets the context status to ["failed"] without consulting the advisor. *)
Theorem metadata_budget_fails_workflow (settings : Settings) (state : WorkflowState)
    (tid : string) (task : Task) (m : Z) :
  first_retryable settings state (failed_tasks state) = Ret (Some tid) →
  tid ≠ "" →
  dict_get tid (tasks state) = Some task →
  as_int (default (VInt 3) (metadata (context state) !! "max_retries")) = Some m →
  m ≤ retry_count task →
  _handle_failure_node settings state = Now (λ t, Ret (fail_workflow_update state t))
  ∧ never_advises (_handle_failure_node settings state).
Proof.
  intros Hfirst Hne Hget Hm Hle.
  assert (Heq : _handle_failure_node settings state
                = Now (λ t, Ret (fail_workflow_update state t))).
  { unfold _handle_failure_node.
    destruct (failed_tasks state); [discriminate Hfirst|].
    rewrite bind_unfold, Hfirst. simpl. rewrite bool_decide_eq_false_2 by done.
    unfold getitem. rewrite Hget. simpl. unfold handle_failure. rewrite Hm.
    by replace (m <=? retry_count task) with true by (symmetry; lia). }
  split; [exact Heq|]. rewrite Heq. intros t. exact I.
Qed.

Lemma metadata_budget_fails_workflow_witness :
  let task := task_in "A" FAILED [] 1 (Some "boom") in
  let state :=
    {| context := ctx_set_metadata {["max_retries" := VInt 1]}
                    (context (create_initial_state "w" "g" 0%nat));
       tasks := [("A", task)]; execution_history := []; current_task := None;
       memory := ∅; errors := []; next_tasks := []; completed_tasks := [];
       failed_tasks := ["A"] |} in
  _handle_failure_node default_settings state
  = Now (λ t, Ret (fail_workflow_update state t)).
Proof.
  intros task state.
  refine (proj1 (metadata_budget_fails_workflow default_settings state "A" task 1
                   eq_refl _ eq_refl eq_refl _)); [discriminate | simpl; lia].
Defined.

(** ** Database actions *)

(** X24. A [db_query] action run through [execute]: without a database
    URL (unset or empty) it gives the error result ["Database URL not
    configured"] whatever the configuration; with a URL but no ["query"]
    key the error is the [KeyError], printed ['query']; otherwise it
    succeeds with no rows, echoing the query and its [params] ([{}] when
    absent). *)
Theorem db_query_outcome (database_url : option string) (config : gmap string Value) :
  let outcome :=
    run_script (execute "db_query" config)
      [R_action (_execute_db_query database_url config)] in
  (database_url = None ∨ database_url = Some "" →
   outcome = Some (inr {| ar_status := "error"; ar_data := VNone;
                          ar_error := Some "Database URL not configured" |}, []))
  ∧ (∀ url, database_url = Some url → url ≠ "" →
       (config !! "query" = None →
        outcome = Some (inr {| ar_status := "error"; ar_data := VNone;
                               ar_error := Some "'query'" |}, []))
       ∧ (∀ query, config !! "query" = Some query →
            ∃ data,
              outcome = Some (inr {| ar_status := "success"; ar_data := VDict data;
                                     ar_error := None |}, [])
              ∧ data.*1 = ["query"; "params"; "rows"; "note"]
              ∧ data !! 0%nat = Some ("query", query)
              ∧ data !! 1%nat = Some ("params", default (VDict []) (config !! "params"))
              ∧ data !! 2%nat = Some ("rows", VList []))).
Proof.
  intros outcome. subst outcome. unfold execute, _execute_db_query.
  rewrite bool_decide_eq_false_2 by discriminate.
  rewrite bool_decide_eq_true_2 by reflexivity.
  split.
  - by intros [-> | ->].
  - intros url -> Hne. rewrite (bool_decide_eq_false_2 _ Hne). simpl. split.
    + by intros ->.
    + intros query ->. by eexists.
Qed.
